(** * Real-Time-Chat-Application: the message relay over Redis pub/sub

    A shallow embedding of [src/database/redis.js] (the broker client) and of
    [src/services/socket.js] (the WebSocket relay), and the properties of the
    relay specification settled against it.

    The two source files are written against two libraries, node-redis and
    socket.io.  What the source does with them is embedded call by call; what
    the libraries do in answer is kept in two small modules of their own
    ([NodeRedis], [SocketIO]) so that it is plain which behaviour comes from the
    repository and which from its dependencies.  Logging through [logger] has
    no effect on any state modelled here and is left as comments at the place
    of each call. *)

From stdpp Require Import gmap strings list fin_maps pretty.
From Stdlib Require Import ZArith Ascii String.

Set Warnings "-register-all,-clear-no-such-hyp".
Local Open Scope Z_scope.
Local Open Scope string_scope.

(** ** JavaScript values, errors and completions *)

Module JS.

(** An error object: its [name] (the constructor) and its [message]. *)
Record js_error := mk_error { err_name : string; err_message : string }.

#[global] Instance js_error_eq_dec : EqDecision js_error.
Proof. solve_decision. Defined.

(** [new Error(msg)] *)
Definition Error (msg : string) : js_error := mk_error "Error" msg.

(** What evaluating an identifier that no scope declares raises. *)
Definition ReferenceError (ident : string) : js_error :=
  mk_error "ReferenceError" (ident +:+ " is not defined").

(** A [TypeError], as raised by a property read on [null] or by a library
    call on an argument of the wrong type. *)
Definition TypeError (msg : string) : js_error := mk_error "TypeError" msg.

(** How a statement list ends: normally with a value, or by a [throw]
    (for an [async] function: the returned promise resolves or rejects). *)
Inductive completion (A : Type) : Type :=
| Normal (a : A)
| Throw (e : js_error).
Arguments Normal {A} a.
Arguments Throw {A} e.

(** A function value.  [fn_name] is its [name] property (empty for an
    anonymous function), [fn_ref] its identity as an object: two closures made
    from the same function expression share the name and differ in identity. *)
Record fn := mk_fn { fn_name : string; fn_ref : nat }.

#[global] Instance fn_eq_dec : EqDecision fn.
Proof. solve_decision. Defined.

(** The values a message payload can be.  An object is the list of its own
    enumerable properties in enumeration order.

    - The program does no arithmetic on a payload, it only serializes it: a
      number is held as the text [Number::toString] writes for it ([42],
      [0.5], [1e+21]), and as [None] when it is [NaN] or an infinity.
    - [JBackRef] stands, inside an object or an array, for a reference to
      an object or array that encloses it: the structure is circular. *)
Inductive jsval : Type :=
| JUndefined
| JNull
| JBool (b : bool)
| JNum (text : option string)
| JBigInt (n : Z)
| JStr (s : string)
| JArr (items : list jsval)
| JObj (props : list (string * jsval))
| JBackRef.

(** [typeof v] *)
Definition typeof (v : jsval) : string :=
  match v with
  | JUndefined => "undefined"
  | JNull | JArr _ | JObj _ | JBackRef => "object"
  | JBool _ => "boolean"
  | JNum _ => "number"
  | JBigInt _ => "bigint"
  | JStr _ => "string"
  end.

(** *** JSON.stringify *)

Definition dquote : ascii := ascii_of_nat 34.
Definition backslash : ascii := ascii_of_nat 92.

Definition hex_digit (n : nat) : ascii :=
  match n with
  | 0 => "0" | 1 => "1" | 2 => "2" | 3 => "3" | 4 => "4" | 5 => "5"
  | 6 => "6" | 7 => "7" | 8 => "8" | 9 => "9" | 10 => "a" | 11 => "b"
  | 12 => "c" | 13 => "d" | 14 => "e" | _ => "f"
  end%char%nat.

(** One code unit of a string as [QuoteJSONString] writes it. *)
Definition quote_char (c : ascii) : string :=
  let n := nat_of_ascii c in
  if decide (n = 8)%nat then String backslash "b"
  else if decide (n = 9)%nat then String backslash "t"
  else if decide (n = 10)%nat then String backslash "n"
  else if decide (n = 12)%nat then String backslash "f"
  else if decide (n = 13)%nat then String backslash "r"
  else if decide (n = 34)%nat then String backslash (String dquote EmptyString)
  else if decide (n = 92)%nat then String backslash (String backslash EmptyString)
  else if decide (n < 32)%nat then
    String backslash
      (String "u" (String "0" (String "0"
         (String (hex_digit (n / 16)) (String (hex_digit (n mod 16)) EmptyString)))))
  else String c EmptyString.

Fixpoint quote_body (s : string) : string :=
  match s with
  | EmptyString => EmptyString
  | String c r => quote_char c +:+ quote_body r
  end.

Definition JSON_quote (s : string) : string :=
  String dquote (quote_body s +:+ String dquote EmptyString).

Fixpoint join_comma (parts : list string) : string :=
  match parts with
  | [] => EmptyString
  | [p] => p
  | p :: rest => p +:+ "," +:+ join_comma rest
  end.

(** [JSON.stringify(v)].  [Normal None] stands for the result [undefined].
    Inside an array [undefined] is written [null]; a property whose value is
    [undefined] is left out; a number that is not finite is written [null].
    The call throws a TypeError when it meets a BigInt, and when it meets an
    object it is already inside of (to the message for a circular structure
    the engine adds a description of the cycle, left out here); the elements
    and properties are visited in order and the first throw ends the call. *)
Fixpoint JSON_stringify (v : jsval) : completion (option string) :=
  match v with
  | JUndefined => Normal None
  | JNull => Normal (Some "null")
  | JBool true => Normal (Some "true")
  | JBool false => Normal (Some "false")
  | JNum (Some text) => Normal (Some text)
  | JNum None => Normal (Some "null")
  | JBigInt _ => Throw (TypeError "Do not know how to serialize a BigInt")
  | JStr s => Normal (Some (JSON_quote s))
  | JBackRef => Throw (TypeError "Converting circular structure to JSON")
  | JArr items =>
      match (fix elements (l : list jsval) : completion (list string) :=
               match l with
               | [] => Normal []
               | i :: rest =>
                   match JSON_stringify i with
                   | Throw e => Throw e
                   | Normal t =>
                       match elements rest with
                       | Throw e => Throw e
                       | Normal ts => Normal (default "null" t :: ts)
                       end
                   end
               end) items with
      | Normal parts => Normal (Some ("[" +:+ join_comma parts +:+ "]"))
      | Throw e => Throw e
      end
  | JObj props =>
      match (fix members (l : list (string * jsval)) : completion (list string) :=
               match l with
               | [] => Normal []
               | (k, x) :: rest =>
                   match JSON_stringify x with
                   | Throw e => Throw e
                   | Normal t =>
                       match members rest with
                       | Throw e => Throw e
                       | Normal ts =>
                           Normal (match t with
                                   | Some t => (JSON_quote k +:+ ":" +:+ t) :: ts
                                   | None => ts
                                   end)
                       end
                   end
               end) props with
      | Normal parts => Normal (Some ("{" +:+ join_comma parts +:+ "}"))
      | Throw e => Throw e
      end
  end.

(** [str.includes(c)] for a one-character needle. *)
Fixpoint includes (c : ascii) (s : string) : bool :=
  match s with
  | EmptyString => false
  | String d r => if decide (c = d) then true else includes c r
  end.

(** *** JSON.parse, for the texts the subscription registry holds

    The registry stores [JSON.stringify({channel, callback})] and reads it
    back with [JSON.parse].  The parser below reads an object of exactly two
    properties whose values are string literals, with no white space, which
    is every text [JSON.stringify] writes for such an object; on any other
    text it answers [None] (for [JSON.parse]: a SyntaxError, or an object of
    another shape). *)

Definition hex_value (c : ascii) : option nat :=
  let n := nat_of_ascii c in
  if decide (48 ≤ n ≤ 57)%nat then Some (n - 48)%nat
  else if decide (97 ≤ n ≤ 102)%nat then Some (n - 87)%nat
  else if decide (65 ≤ n ≤ 70)%nat then Some (n - 55)%nat
  else None.

Definition hex4 (a b c d : ascii) : option nat :=
  match hex_value a, hex_value b, hex_value c, hex_value d with
  | Some x, Some y, Some z, Some w => Some (((x * 16 + y) * 16 + z) * 16 + w)%nat
  | _, _, _, _ => None
  end.

Definition prepend (c : ascii) (r : option (string * string)) : option (string * string) :=
  match r with
  | Some (body, rest) => Some (String c body, rest)
  | None => None
  end.

(** The characters of a string literal after its opening quote: the decoded
    string and what follows the closing quote. *)
Fixpoint unquote_body (s : string) : option (string * string) :=
  match s with
  | EmptyString => None
  | String c r =>
      if decide (c = dquote) then Some (EmptyString, r)
      else if decide (c = backslash) then
        match r with
        | EmptyString => None
        | String e r1 =>
            if decide (e = "b"%char) then prepend (ascii_of_nat 8) (unquote_body r1)
            else if decide (e = "t"%char) then prepend (ascii_of_nat 9) (unquote_body r1)
            else if decide (e = "n"%char) then prepend (ascii_of_nat 10) (unquote_body r1)
            else if decide (e = "f"%char) then prepend (ascii_of_nat 12) (unquote_body r1)
            else if decide (e = "r"%char) then prepend (ascii_of_nat 13) (unquote_body r1)
            else if decide (e = "/"%char) then prepend "/"%char (unquote_body r1)
            else if decide (e = dquote) then prepend dquote (unquote_body r1)
            else if decide (e = backslash) then prepend backslash (unquote_body r1)
            else if decide (e = "u"%char) then
              match r1 with
              | String h1 (String h2 (String h3 (String h4 r2))) =>
                  match hex4 h1 h2 h3 h4 with
                  | Some n =>
                      if decide (n < 256)%nat
                      then prepend (ascii_of_nat n) (unquote_body r2)
                      else None
                  | None => None
                  end
              | _ => None
              end
            else None
        end
      else if decide (nat_of_ascii c < 32)%nat then None
      else prepend c (unquote_body r)
  end.

Definition expect (c : ascii) (s : string) : option string :=
  match s with
  | String d r => if decide (c = d) then Some r else None
  | EmptyString => None
  end.

Definition parse_string (s : string) : option (string * string) :=
  match expect dquote s with
  | Some r => unquote_body r
  | None => None
  end.

Definition parse_prop (s : string) : option ((string * string) * string) :=
  match parse_string s with
  | Some (k, r) =>
      match expect ":"%char r with
      | Some r1 =>
          match parse_string r1 with
          | Some (v, r2) => Some ((k, v), r2)
          | None => None
          end
      | None => None
      end
  | None => None
  end.

(** [JSON.parse(text)] for an object of two string properties. *)
Definition JSON_parse_pair (text : string) : option (list (string * string)) :=
  match expect "{"%char text with
  | Some r =>
      match parse_prop r with
      | Some (p1, r1) =>
          match expect ","%char r1 with
          | Some r2 =>
              match parse_prop r2 with
              | Some (p2, r3) =>
                  match expect "}"%char r3 with
                  | Some EmptyString => Some [p1; p2]
                  | _ => None
                  end
              | None => None
              end
          | None => None
          end
      | None => None
      end
  | None => None
  end.

(** Reading property [k] of a parsed object: the last binding of a
    repeated key is the one [JSON.parse] keeps. *)
Fixpoint get_prop (k : string) (props : list (string * string)) : option string :=
  match props with
  | [] => None
  | (k', v) :: rest =>
      match get_prop k rest with
      | Some v' => Some v'
      | None => if decide (k = k') then Some v else None
      end
  end.

End JS.

(** ** The node-redis client, as far as [redis.js] uses it *)

Module NodeRedis.
Import JS.

(** The function values this program hands to [subscribe] and [pSubscribe]:
    a callback received from a caller, or one of the two arrow functions that
    [resubscribeTochannels] writes, each closing over a callback name. *)
Inductive listener : Type :=
| L_fn (f : fn)
| L_resub_pattern (callback : string)
| L_resub_channel (callback : string).

#[global] Instance listener_eq_dec : EqDecision listener.
Proof. solve_decision. Defined.

(** The client keeps, per channel, the set of its listeners (a JS [Set]:
    the same function object is held once).  An arrow function is a new object
    each time its expression is evaluated, so it never is in the set yet. *)
Definition add_listener (l : listener) (ls : list listener) : list listener :=
  match l with
  | L_fn _ => if decide (l ∈ ls) then ls else ls ++ [l]
  | _ => ls ++ [l]
  end.

Record client := mk_client {
  isPubSub : bool;                           (* made by createRedisClient(true) *)
  isOpen : bool;                             (* client.isOpen *)
  channels : gmap string (list listener);    (* listeners by channel *)
  patterns : gmap string (list listener);    (* listeners by pattern *)
  publish_calls : list (jsval * jsval);      (* arguments of each publish call, in order *)
  dispatching : bool                         (* the client still hands frames to listeners *)
}.

(** [createClient(options)]: not connected, no listener. *)
Definition createClient (pubsub : bool) : client :=
  mk_client pubsub false ∅ ∅ [] true.

Definition set_isOpen (b : bool) (c : client) : client :=
  mk_client (isPubSub c) b (channels c) (patterns c) (publish_calls c) (dispatching c).

(** A listener has thrown.  The client calls its listeners from the handler
    of the socket's data and catches nothing there: the exception leaves the
    client's reader, and the client hands no later frame to a listener. *)
Definition stop_dispatching (c : client) : client :=
  mk_client (isPubSub c) (isOpen c) (channels c) (patterns c) (publish_calls c) false.

(** [await client.subscribe(channel, listener)].  [reply] is how the call
    ends; when it resolves, the channel is subscribed (no second SUBSCRIBE is
    issued for a channel that has listeners) and holds the listener. *)
Definition subscribe (channel : string) (l : listener)
    (reply : completion unit) (c : client) : completion unit * client :=
  match reply with
  | Normal _ =>
      (reply,
       mk_client (isPubSub c) (isOpen c)
         (<[channel := add_listener l (default [] (channels c !! channel))]> (channels c))
         (patterns c) (publish_calls c) (dispatching c))
  | Throw _ => (reply, c)
  end.

(** [await client.pSubscribe(pattern, listener)] *)
Definition pSubscribe (pattern : string) (l : listener)
    (reply : completion unit) (c : client) : completion unit * client :=
  match reply with
  | Normal _ =>
      (reply,
       mk_client (isPubSub c) (isOpen c) (channels c)
         (<[pattern := add_listener l (default [] (patterns c !! pattern))]> (patterns c))
         (publish_calls c) (dispatching c))
  | Throw _ => (reply, c)
  end.

(** [await client.publish(channel, message)], with the two arguments as the
    caller passes them (the client rejects a call whose arguments are not
    strings or buffers; [reply] is how the call ends). *)
Definition publish (channel message : jsval)
    (reply : completion unit) (c : client) : completion unit * client :=
  (reply,
   mk_client (isPubSub c) (isOpen c) (channels c) (patterns c)
     (publish_calls c ++ [(channel, message)]) (dispatching c)).

End NodeRedis.

(** ** [src/database/redis.js] *)

Module Redis.
Import JS NodeRedis.

(** [const connectionState = {...}] *)
Record connection_state := mk_connection_state {
  isConnected : bool;
  lastError : option js_error;
  reconnectAttempts : Z;
  lastReconnectTime : option Z;
  subscriptions : list string     (* a JS Set of strings, in insertion order *)
}.

(** The module's variables, and the properties it sets on [global]. *)
Record state := mk_state {
  redisClient : option client;
  pubSubClient : option client;
  connectionState : connection_state;
  global : gmap string fn
}.

(** [Set.prototype.add] *)
Definition set_add (x : string) (s : list string) : list string :=
  if decide (x ∈ s) then s else s ++ [x].

Definition MAX_RECONNECT_ATTEMPTS : Z := 12.
Definition BASE_RECONNECT_DELAY : Z := 1000.

(** *** Statements as state transformers that may throw *)

Definition M (A : Type) : Type := state → completion A * state.

Definition ret {A} (a : A) : M A := fun s => (Normal a, s).
Definition throw {A} (e : js_error) : M A := fun s => (Throw e, s).
Definition bind {A B} (m : M A) (k : A → M B) : M B :=
  fun s => match m s with
           | (Normal a, s') => k a s'
           | (Throw e, s') => (Throw e, s')
           end.
(** [try { body } catch (error) { handler }] *)
Definition try_catch {A} (body : M A) (handler : js_error → M A) : M A :=
  fun s => match body s with
           | (Normal a, s') => (Normal a, s')
           | (Throw e, s') => handler e s'
           end.

Notation "'do' x <- m ; k" := (bind m (fun x => k))
  (at level 10, x name, m at level 100, k at level 200).
Notation "m ;; k" := (bind m (fun _ => k))
  (at level 100, k at level 200, right associativity).

Definition update_connectionState (f : connection_state → connection_state) : M unit :=
  fun s => (Normal tt,
            mk_state (redisClient s) (pubSubClient s) (f (connectionState s)) (global s)).

Definition set_isConnected (b : bool) : M unit :=
  update_connectionState (fun cs =>
    mk_connection_state b (lastError cs) (reconnectAttempts cs)
      (lastReconnectTime cs) (subscriptions cs)).

Definition set_lastError (e : option js_error) : M unit :=
  update_connectionState (fun cs =>
    mk_connection_state (isConnected cs) e (reconnectAttempts cs)
      (lastReconnectTime cs) (subscriptions cs)).

(** [connectionState.subscriptions.add(text)] *)
Definition subscriptions_add (text : string) : M unit :=
  update_connectionState (fun cs =>
    mk_connection_state (isConnected cs) (lastError cs) (reconnectAttempts cs)
      (lastReconnectTime cs) (set_add text (subscriptions cs))).

(** [global[name] = f] *)
Definition global_set (name : string) (f : fn) : M unit :=
  fun s => (Normal tt,
            mk_state (redisClient s) (pubSubClient s) (connectionState s)
              (<[name := f]> (global s))).

(** A method call on the object held by [pubSubClient] / [redisClient]. *)
Definition on_pubSubClient {A} (call : client → completion A * client) : M A :=
  fun s => match pubSubClient s with
           | Some c => let (r, c') := call c in
                       (r, mk_state (redisClient s) (Some c') (connectionState s) (global s))
           | None => (Throw (TypeError "Cannot read properties of null"), s)
           end.

Definition on_redisClient {A} (call : client → completion A * client) : M A :=
  fun s => match redisClient s with
           | Some c => let (r, c') := call c in
                       (r, mk_state (Some c') (pubSubClient s) (connectionState s) (global s))
           | None => (Throw (TypeError "Cannot read properties of null"), s)
           end.

(** [!client || !client.isOpen] *)
Definition not_open (c : option client) : bool :=
  match c with
  | Some c => negb (isOpen c)
  | None => true
  end.

(** *** reconnectStrategy (lines 70-90)

    The body names [connectState], which the module never declares (its
    state object is [connectionState]); in module code, evaluating an
    undeclared identifier throws. *)
Definition connectState_assign : M unit := throw (ReferenceError "connectState").

Inductive strategy_result : Type :=
| RetryIn (delay : Z)
| GiveUp (error : js_error).

Definition reconnectStrategy (retries : Z) : M strategy_result :=
  if decide (MAX_RECONNECT_ATTEMPTS ≤ retries)%Z then
    let error := Error ("Redis connection failed after "
                        +:+ pretty MAX_RECONNECT_ATTEMPTS +:+ " attempts") in
    (* logger.error(error.message) *)
    connectState_assign ;;                  (* connectState.lastError = error *)
    ret (GiveUp error)
  else
    connectState_assign ;;                  (* connectState.reconnectAttempts = retries *)
    connectState_assign ;;                  (* connectState.lastReconnectTime = new Date() *)
    let delay := Z.min (BASE_RECONNECT_DELAY * 2 ^ retries) 60000 in
    (* logger.warn(...) *)
    ret (RetryIn delay).

(** *** subscribeTochannel (lines 258-286) and subscribeTopattern (293-320)

    [now] is what [Date.now()] reads, [reply] how the client's call ends. *)

(** [callback.name || fallback] *)
Definition name_or (callback : fn) (fallback : string) : string :=
  if decide (fn_name callback = EmptyString) then fallback else fn_name callback.

(** [JSON.stringify({ channel, callback: callbackName })] *)
Definition subscription_text (channel callbackName : string) : string :=
  match JSON_stringify (JObj [("channel", JStr channel); ("callback", JStr callbackName)]) with
  | Normal (Some text) => text
  | _ => EmptyString
  end.

Definition subscribeTochannel (channel : string) (callback : fn)
    (now : Z) (reply : completion unit) : M unit :=
  fun s =>
  if not_open (pubSubClient s) then
    throw (Error "Redis PubSub client not connected") s
  else
    try_catch
      (let callbackName := name_or callback ("callback_" +:+ pretty now) in
       (if decide (fn_name callback = EmptyString)
        then global_set callbackName callback
        else ret tt) ;;
       subscriptions_add (subscription_text channel callbackName) ;;
       on_pubSubClient (subscribe channel (L_fn callback) reply) ;;
       (* logger.info(...) *)
       ret tt)
      (fun error =>
         (* logger.error(...) *)
         throw error)
      s.

Definition subscribeTopattern (pattern : string) (callback : fn)
    (now : Z) (reply : completion unit) : M unit :=
  fun s =>
  if not_open (pubSubClient s) then
    throw (Error "Redis PubSub client not connected") s
  else
    try_catch
      (let callbackName := name_or callback ("pattern_callback_" +:+ pretty now) in
       (if decide (fn_name callback = EmptyString)
        then global_set callbackName callback
        else ret tt) ;;
       subscriptions_add (subscription_text pattern callbackName) ;;
       on_pubSubClient (pSubscribe pattern (L_fn callback) reply) ;;
       (* logger.info(..., error) *)
       ret tt)
      (fun error =>
         (* logger.error(...) *)
         throw error)
      s.

(** *** publishToChannel (lines 327-345)

    [channel] and [message] are whatever values the caller passes. *)

(** [typeof message === 'object' ? JSON.stringify(message) : message] *)
Definition messageString (message : jsval) : completion jsval :=
  if decide (typeof message = "object")
  then match JSON_stringify message with
       | Normal (Some text) => Normal (JStr text)
       | Normal None => Normal JUndefined
       | Throw e => Throw e
       end
  else Normal message.

Definition publishToChannel (channel message : jsval)
    (reply : completion unit) : M unit :=
  fun s =>
  if not_open (redisClient s) then
    throw (Error "Redis client not connected") s
  else
    try_catch
      (do payload <- (fun s => (messageString message, s)) ;
       on_redisClient (publish channel payload reply) ;;
       (* logger.debug(...) *)
       ret tt)
      (fun error =>
         (* logger.error(...) *)
         throw error)
      s.

(** *** resubscribeTochannels (lines 149-184) *)

(** [const { channel, callback } = JSON.parse(channelInfo)].  [None] stands
    for a text that is not an object of that shape; the registry holds no
    such text, and on one the loop body throws. *)
Definition parse_subscription (channelInfo : string) : option (string * string) :=
  match JSON_parse_pair channelInfo with
  | Some props =>
      match get_prop "channel" props, get_prop "callback" props with
      | Some channel, Some callback => Some (channel, callback)
      | _, _ => None
      end
  | None => None
  end.

(** The body of the [for ... of] loop; [reply channel] is how the client's
    call for that channel ends. *)
Definition resubscribe_one (channelInfo : string)
    (reply : string → completion unit) (c : client) : completion unit * client :=
  match parse_subscription channelInfo with
  | None => (Throw (mk_error "SyntaxError" channelInfo), c)
  | Some (channel, callback) =>
      if includes "*"%char channel
      then pSubscribe channel (L_resub_pattern callback) (reply channel) c
           (* logger.debug(...) *)
      else subscribe channel (L_resub_channel callback) (reply channel) c
           (* logger.debug(...) *)
  end.

Fixpoint resubscribe_loop (entries : list string)
    (reply : string → completion unit) (c : client) : completion unit * client :=
  match entries with
  | [] => (Normal tt, c)
  | channelInfo :: rest =>
      match resubscribe_one channelInfo reply c with
      | (Normal _, c') => resubscribe_loop rest reply c'
      | (Throw e, c') => (Throw e, c')
      end
  end.

(** The function returns the client as the calls left it: the [catch]
    block logs the error and ends normally. *)
Definition resubscribeTochannels (c : client)
    (reply : string → completion unit) : M client :=
  fun s =>
    (* logger.info(...) *)
    let (_, c') := resubscribe_loop (subscriptions (connectionState s)) reply c in
    (Normal c', s).

(** What a listener does when the client hands it [(message, channel)]:
    the function it calls with these two arguments, if it calls one.

    - a callback is that function;
    - the arrow function of lines 170-176 looks its callback name up in
      [global] and calls what it finds, or logs a warning;
    - the arrow function of lines 160-167 reads [global[back]], and [back]
      is declared nowhere. *)
Definition listener_body (l : listener) : M (option fn) :=
  fun s =>
  match l with
  | L_fn f => (Normal (Some f), s)
  | L_resub_channel callback =>
      match global s !! callback with
      | Some f => (Normal (Some f), s)
      | None => (* logger.warn(...) *) (Normal None, s)
      end
  | L_resub_pattern callback => (Throw (ReferenceError "back"), s)
  end.

(** *** setupRedisEvents (lines 112-143): the handlers, by event *)

Inductive client_event : Type :=
| Ev_connect
| Ev_ready
| Ev_error (error : js_error)
| Ev_reconnecting
| Ev_end.

Definition setupRedisEvents (c : client) (pubsub : bool) (ev : client_event)
    (reply : string → completion unit) : M client :=
  match ev with
  | Ev_connect =>
      (* logger.info(`${clinetType} client connected`): the variable is clientType *)
      throw (ReferenceError "clinetType")
  | Ev_ready =>
      set_isConnected true ;;
      set_lastError None ;;
      (* logger.info(...) *)
      fun s =>
        if pubsub && bool_decide (0 < List.length (subscriptions (connectionState s)))%nat
        then resubscribeTochannels c reply s
        else (Normal c, s)
  | Ev_error error =>
      set_lastError (Some error) ;;
      (* logger.error(...) *)
      ret c
  | Ev_reconnecting =>
      (* logger.warn(...) *)
      ret c
  | Ev_end =>
      set_isConnected false ;;
      (* logger.info(...) *)
      ret c
  end.

(** The module's state when it is loaded. *)
Definition initial_connectionState : connection_state :=
  mk_connection_state false None 0 None [].

End Redis.

(** ** The socket.io server, as far as [socket.js] uses it

    Rooms live in the server's in-memory adapter: [rooms] maps a room to the
    ids of the sockets in it, [sids] maps a socket id to the rooms it is in
    (what [socket.rooms] shows).  The order in which a room lists its sockets
    is not kept. *)

Module SocketIO.

Record server := mk_server {
  sockets : gset string;                       (* ids of the connected sockets *)
  rooms : gmap string (gset string);           (* adapter.rooms *)
  sids : gmap string (gset string);            (* adapter.sids *)
  disconnect_listeners : gmap string nat;      (* listeners on 'disconnect', per socket *)
  packets : list (string * (string * string))  (* (socket id, (event, payload)) written, in order *)
}.

Definition empty_server : server := mk_server ∅ ∅ ∅ ∅ [].

(** [adapter.addAll(id, new Set([room]))] *)
Definition adapter_addAll (id room : string) (sv : server) : server :=
  mk_server (sockets sv)
    (<[room := {[id]} ∪ default ∅ (rooms sv !! room)]> (rooms sv))
    (<[id := {[room]} ∪ default ∅ (sids sv !! id)]> (sids sv))
    (disconnect_listeners sv) (packets sv).

(** [adapter._del(room, id)]: the room entry goes when its set is empty. *)
Definition rooms_del (room id : string)
    (rs : gmap string (gset string)) : gmap string (gset string) :=
  match rs !! room with
  | Some members =>
      if decide (members ∖ {[id]} = ∅)
      then delete room rs
      else <[room := members ∖ {[id]}]> rs
  | None => rs
  end.

(** [adapter.del(id, room)] *)
Definition adapter_del (id room : string) (sv : server) : server :=
  mk_server (sockets sv)
    (rooms_del room id (rooms sv))
    (match sids sv !! id with
     | Some joined => <[id := joined ∖ {[room]}]> (sids sv)
     | None => sids sv
     end)
    (disconnect_listeners sv) (packets sv).

(** [adapter.delAll(id)] *)
Definition adapter_delAll (id : string) (sv : server) : server :=
  match sids sv !! id with
  | None => sv
  | Some joined =>
      mk_server (sockets sv)
        (foldr (fun room rs => rooms_del room id rs) (rooms sv) (elements joined))
        (delete id (sids sv))
        (disconnect_listeners sv) (packets sv)
  end.

(** A client connects: the socket joins the room named by its own id and is
    entered among the namespace's sockets. *)
Definition socket_connect (id : string) (sv : server) : server :=
  let sv' := adapter_addAll id id sv in
  mk_server ({[id]} ∪ sockets sv') (rooms sv') (sids sv')
    (disconnect_listeners sv') (packets sv').

(** [socket.join(room)] and [socket.leave(room)] *)
Definition socket_join (id room : string) (sv : server) : server :=
  adapter_addAll id room sv.

Definition socket_leave (id room : string) (sv : server) : server :=
  adapter_del id room sv.

(** [socket.on('disconnect', listener)] *)
Definition socket_on_disconnect (id : string) (sv : server) : server :=
  mk_server (sockets sv) (rooms sv) (sids sv)
    (<[id := S (default 0%nat (disconnect_listeners sv !! id))]> (disconnect_listeners sv))
    (packets sv).

(** The socket closes: it leaves all its rooms and the namespace; its
    'disconnect' listeners run after that. *)
Definition socket_close (id : string) (sv : server) : server :=
  let sv' := adapter_delAll id sv in
  mk_server (sockets sv' ∖ {[id]}) (rooms sv') (sids sv')
    (disconnect_listeners sv') (packets sv').

(** The sockets [io.to(room)] addresses. *)
Definition recipients (room : string) (sv : server) : list string :=
  filter (fun id => id ∈ sockets sv) (elements (default ∅ (rooms sv !! room))).

(** [io.to(room).emit(event, payload)] *)
Definition to_emit (room event payload : string) (sv : server) : server :=
  mk_server (sockets sv) (rooms sv) (sids sv) (disconnect_listeners sv)
    (packets sv ++ map (fun id => (id, (event, payload))) (recipients room sv)).

(** [socket.rooms.has(room)] *)
Definition joined (id room : string) (sv : server) : Prop :=
  room ∈ default ∅ (sids sv !! id).

(** The members of a room. *)
Definition members (room : string) (sv : server) : gset string :=
  default ∅ (rooms sv !! room).

(** The two tables of the adapter agree, no room entry is empty, and the
    sockets with an entry in [sids] are the connected ones. *)
Record consistent (sv : server) : Prop := mk_consistent {
  rooms_sids : ∀ id room,
    id ∈ default ∅ (rooms sv !! room) ↔ room ∈ default ∅ (sids sv !! id);
  rooms_nonempty : ∀ room, rooms sv !! room ≠ Some ∅;
  sids_sockets : ∀ id, is_Some (sids sv !! id) ↔ id ∈ sockets sv
}.

End SocketIO.

(** ** [src/services/socket.js] *)

Module SocketService.
Import JS NodeRedis SocketIO.

(** What the relay's handlers read and write: the broker module's state,
    the socket.io server [io], and how many function objects the connection
    handler has made so far (each connection evaluates the [handleMesage]
    arrow function anew). *)
Record state := mk_state {
  redis : Redis.state;
  io : server;
  closures : nat
}.

Definition R (A : Type) : Type := state → completion A * state.

Definition ret {A} (a : A) : R A := fun st => (Normal a, st).
Definition throw {A} (e : js_error) : R A := fun st => (Throw e, st).
Definition bind {A B} (m : R A) (k : A → R B) : R B :=
  fun st => match m st with
            | (Normal a, st') => k a st'
            | (Throw e, st') => (Throw e, st')
            end.

Notation "'do' x <- m ; k" := (bind m (fun x => k))
  (at level 10, x name, m at level 100, k at level 200).
Notation "m ;; k" := (bind m (fun _ => k))
  (at level 100, k at level 200, right associativity).

(** A call into [redis.js]. *)
Definition call_redis {A} (m : Redis.M A) : R A :=
  fun st => let (r, s') := m (redis st) in
            (r, mk_state s' (io st) (closures st)).

(** A call on [io] or on a socket. *)
Definition on_io (f : server → server) : R unit :=
  fun st => (Normal tt, mk_state (redis st) (f (io st)) (closures st)).

(** [handleMesage] (lines 64-67) *)
Definition handleMesage (message channel : string) : R unit :=
  on_io (to_emit channel "message" message)
  (* logger.info(...) *).

(** The handler of 'join' (lines 37-40) *)
Definition on_join (id room : string) : R unit :=
  on_io (socket_join id room)
  (* logger.info(...) *).

(** The handler of 'leave' (lines 43-46) *)
Definition on_leave (id room : string) : R unit :=
  on_io (socket_leave id room)
  (* logger.info(...) *).

(** The handler of 'disconnect' (lines 58-60): [logger,info(...)] is a comma
    expression whose second operand calls [info], declared nowhere. *)
Definition on_disconnect (id : string) : R unit :=
  throw (ReferenceError "info").

(** [obj[key]] on a payload *)
Fixpoint lookup_property (key : string) (props : list (string * jsval)) : jsval :=
  match props with
  | [] => JUndefined
  | (k, v) :: rest => if decide (k = key) then v else lookup_property key rest
  end.

Definition property (key : string) (v : jsval) : jsval :=
  match v with
  | JObj props => lookup_property key props
  | _ => JUndefined
  end.

(** [const { room, message } = v]: reading a property of [undefined] or of
    [null] throws. *)
Definition destructure (v : jsval) : completion jsval :=
  match v with
  | JUndefined =>
      Throw (TypeError
               "Cannot destructure property 'room' of 'messageData' as it is undefined.")
  | JNull =>
      Throw (TypeError
               "Cannot destructure property 'room' of 'messageData' as it is null.")
  | _ => Normal v
  end.

(** The handler of 'message' (lines 49-61).  Its parameter is [data]; the
    destructuring reads [messageData], declared nowhere, so the statements
    after it (the publish, and the registration of the 'disconnect' handler)
    are never reached.  [message_handler] is the statement list, given how
    the evaluation of that identifier ends; [room] and [message] go to
    [publishToChannel] whatever values they are. *)
Definition message_handler (messageData : completion jsval)
    (id : string) (data : jsval) (reply : completion unit) : R unit :=
  (* logger.info(...) *)
  do md <- (fun st => (messageData, st)) ;
  do md <- (fun st => (destructure md, st)) ;
  let room := property "room" md in
  let message := property "message" md in
  call_redis (Redis.publishToChannel room message reply) ;;
  (* logger.info(...) *)
  on_io (socket_on_disconnect id).

Definition on_message (id : string) (data : jsval) (reply : completion unit) : R unit :=
  message_handler (Throw (ReferenceError "messageData")) id data reply.

(** The handler of 'connection' (lines 33-72), run by the server once the
    socket is connected.  The promise [subscribeTochannel] returns is not
    awaited: however the call ends, the handler goes on and returns [io]. *)
Definition on_connection (id : string) (now : Z) (reply : completion unit) : R unit :=
  fun st =>
    (* logger.info(...); socket.on('join' | 'leave' | 'message', ...) *)
    let handler := mk_fn "handleMesage" (closures st) in
    let (_, s') := Redis.subscribeTochannel "chat:*" handler now reply (redis st) in
    (Normal tt, mk_state s' (io st) (S (closures st))).

(** *** The relay as a transition system *)

Inductive client_ref : Type := Main | PubSub.

Inductive event : Type :=
| Connection (id : string) (now : Z) (reply : completion unit)
| Join (id room : string)
| Leave (id room : string)
| Message (id : string) (data : jsval) (reply : completion unit)
| Disconnect (id : string)
    (* the broker sends a message frame for a subscribed channel ([key], which
       is the frame's channel), or a pmessage frame for a subscribed pattern
       ([key]) and a channel; which channels a pattern matches is the
       broker's matter and is left open *)
| Delivery (pattern : bool) (key channel message : string)
    (* the library opens or closes the connection of a client *)
| ClientOpen (which : client_ref) (open : bool)
    (* the library emits an event on a client *)
| ClientEvent (which : client_ref) (ev : Redis.client_event)
    (reply : string → completion unit).

(** The client calls each listener of the subscription with
    [(message, channel)].  The functions this program subscribes are
    [handleMesage] closures, so a listener that calls a function runs
    [handleMesage].  A listener that throws ends the loop: the listeners
    after it are not called. *)
Fixpoint dispatch (ls : list listener) (message channel : string) : R unit :=
  match ls with
  | [] => ret tt
  | l :: rest =>
      do target <- call_redis (Redis.listener_body l) ;
      match target with
      | Some _ => handleMesage message channel
      | None => ret tt
      end ;;
      dispatch rest message channel
  end.

(** The 'disconnect' listeners of a socket, run one after the other. *)
Fixpoint run_disconnect (n : nat) (id : string) : R unit :=
  match n with
  | O => ret tt
  | S n' => on_disconnect id ;; run_disconnect n' id
  end.

Definition get_client (which : client_ref) (s : Redis.state) : option client :=
  match which with
  | Main => Redis.redisClient s
  | PubSub => Redis.pubSubClient s
  end.

Definition put_client (which : client_ref) (c : client) (s : Redis.state) : Redis.state :=
  match which with
  | Main => Redis.mk_state (Some c) (Redis.pubSubClient s)
              (Redis.connectionState s) (Redis.global s)
  | PubSub => Redis.mk_state (Redis.redisClient s) (Some c)
                (Redis.connectionState s) (Redis.global s)
  end.

(** The pub/sub client after a listener of it has thrown. *)
Definition listener_threw (s : Redis.state) : Redis.state :=
  match Redis.pubSubClient s with
  | Some c => put_client PubSub (stop_dispatching c) s
  | None => s
  end.

(** The client dispatches one frame to the listeners [ls].  Nothing catches
    what a listener throws: the client then stops dispatching. *)
Definition deliver (ls : list listener) (message channel : string) (st : state) : state :=
  match dispatch ls message channel st with
  | (Normal _, st') => st'
  | (Throw _, st') => mk_state (listener_threw (redis st')) (io st') (closures st')
  end.

(** One event; [None] when the event cannot occur in the state (a frame
    from a socket that is not connected, an event of a client that does not
    exist, a frame when the client has stopped dispatching, a message frame
    whose channel is not the subscribed one).  A handler that throws leaves
    the state as it was at the throw. *)
Definition step (e : event) (st : state) : option state :=
  match e with
  | Connection id now reply =>
      if decide (id ∈ sockets (io st)) then None
      else Some (snd ((on_io (socket_connect id) ;; on_connection id now reply) st))
  | Join id room =>
      if decide (id ∈ sockets (io st)) then Some (snd (on_join id room st)) else None
  | Leave id room =>
      if decide (id ∈ sockets (io st)) then Some (snd (on_leave id room st)) else None
  | Message id data reply =>
      if decide (id ∈ sockets (io st)) then Some (snd (on_message id data reply st)) else None
  | Disconnect id =>
      if decide (id ∈ sockets (io st))
      then Some (snd ((on_io (socket_close id) ;;
                       run_disconnect
                         (default 0%nat (disconnect_listeners (io st) !! id)) id) st))
      else None
  | Delivery pattern key channel message =>
      match Redis.pubSubClient (redis st) with
      | Some c =>
          if dispatching c && (pattern || bool_decide (key = channel)) then
            let ls := default [] ((if pattern then patterns c else channels c) !! key) in
            Some (deliver ls message channel st)
          else None
      | None => None
      end
  | ClientOpen which open =>
      match get_client which (redis st) with
      | Some c => Some (mk_state (put_client which (set_isOpen open c) (redis st))
                          (io st) (closures st))
      | None => None
      end
  | ClientEvent which ev reply =>
      match get_client which (redis st) with
      | Some c =>
          let pubsub := match which with Main => false | PubSub => true end in
          match Redis.setupRedisEvents c pubsub ev reply (redis st) with
          | (Normal c', s') => Some (mk_state (put_client which c' s') (io st) (closures st))
          | (Throw _, s') => Some (mk_state s' (io st) (closures st))
          end
      | None => None
      end
  end.

Fixpoint run (evs : list event) (st : state) : option state :=
  match evs with
  | [] => Some st
  | e :: rest =>
      match step e st with
      | Some st' => run rest st'
      | None => None
      end
  end.

(** The state at start-up: no socket, nothing subscribed; each of the two
    broker clients is absent ([None]) or exists, open or not. *)
Definition init (main pubsub : option bool) : state :=
  mk_state
    (Redis.mk_state
       ((fun open => set_isOpen open (createClient false)) <$> main)
       ((fun open => set_isOpen open (createClient true)) <$> pubsub)
       Redis.initial_connectionState ∅)
    empty_server 0.

Definition reachable (st : state) : Prop :=
  ∃ main pubsub evs, run evs (init main pubsub) = Some st.

(** The text the connection handler's subscription is recorded under. *)
Definition chat_subscription : string :=
  Redis.subscription_text "chat:*" "handleMesage".

(** A broker subscription exists for [channel]: the registry records one, or
    the pub/sub client holds a listener for it as a channel or a pattern. *)
Definition recorded (channel : string) (s : Redis.state) : bool :=
  bool_decide
    (Exists (fun text => fst <$> Redis.parse_subscription text = Some channel)
       (Redis.subscriptions (Redis.connectionState s))).

Definition listening (channel : string) (s : Redis.state) : bool :=
  match Redis.pubSubClient s with
  | Some c =>
      bool_decide (default [] (channels c !! channel) ≠ [])
      || bool_decide (default [] (patterns c !! channel) ≠ [])
  | None => false
  end.

Definition subscribed (channel : string) (s : Redis.state) : bool :=
  recorded channel s || listening channel s.

(** The client has listeners under no key but [chat:*]. *)
Definition chat_only (c : client) : Prop :=
  ∀ key, is_Some (channels c !! key) ∨ is_Some (patterns c !! key) → key = "chat:*".

(** What holds of the broker module in every state the relay reaches: the
    registry records nothing but the connection handler's subscription, the
    pub/sub client listens on nothing but its channel, and the relay has put
    no function on [global]. *)
Record broker_invariant (s : Redis.state) : Prop := mk_broker_invariant {
  registry_chat : ∀ text,
    text ∈ Redis.subscriptions (Redis.connectionState s) → text = chat_subscription;
  tables_chat : ∀ c, Redis.pubSubClient s = Some c → chat_only c;
  global_empty : Redis.global s = ∅
}.

(** What holds in every state the relay reaches: the room tables are
    consistent, the broker module is as above, and no 'disconnect' listener
    has been registered (the registration is never reached). *)
Record invariant (st : state) : Prop := mk_invariant {
  inv_io : consistent (io st);
  inv_broker : broker_invariant (redis st);
  inv_listeners : disconnect_listeners (io st) = ∅
}.

(** Two states used as examples: one client connected while no broker
    client exists, and the same after it has disconnected. *)
Definition one_client : state :=
  default (init None None) (run [Connection "s1" 0 (Normal tt)] (init None None)).

Definition one_client_gone : state :=
  default one_client (step (Disconnect "s1") one_client).

End SocketService.

(** ** [redis.js]: connecting, disconnecting, health *)

Module Lifecycle.
Import JS NodeRedis Redis.

(** [await client.connect()] and [await client.quit()]: [reply] is how the
    call ends.  A [connect()] that resolves leaves the client open.  On
    [quit()] the client marks itself closed before it sends the command, so
    it is closed however the call ends. *)
Definition connect (reply : completion unit) (c : client) : completion unit * client :=
  match reply with
  | Normal _ => (reply, set_isOpen true c)
  | Throw _ => (reply, c)
  end.

Definition quit (reply : completion unit) (c : client) : completion unit * client :=
  (reply, set_isOpen false c).

(** [createRedisClient(isPubSub)] (lines 43-105): the client that
    [createClient] makes from the connection options.  The options (URL,
    socket settings, [reconnectStrategy]) are not part of the client's state
    as modelled. *)
Definition createRedisClient (pubsub : bool) : client := createClient pubsub.

(** [redisClient = c] and [pubSubClient = c] *)
Definition set_redisClient (c : option client) : M unit :=
  fun s => (Normal tt, mk_state c (pubSubClient s) (connectionState s) (global s)).

Definition set_pubSubClient (c : option client) : M unit :=
  fun s => (Normal tt, mk_state (redisClient s) c (connectionState s) (global s)).

(** [connectionState.subscriptions.clear()] *)
Definition subscriptions_clear : M unit :=
  update_connectionState (fun cs =>
    mk_connection_state (isConnected cs) (lastError cs) (reconnectAttempts cs)
      (lastReconnectTime cs) []).

(** *** connectRedis (lines 189-223)

    After the first [redisClient = createRedisClient()] the body calls
    [setupRedisEvents.coonect()]; [setupRedisEvents] is a function with no
    such property, so the call throws a TypeError and the statements after
    it are never reached.  [connectRedis_body] is the statement list, given
    how that call ends; [reply_main] and [reply_pubsub] are how the two
    [connect()] calls end. *)
Definition connectRedis_body (coonect : completion unit)
    (reply_main reply_pubsub : completion unit) : M client :=
  try_catch
    (fun s =>
       if negb (not_open (redisClient s)) then
         on_redisClient (fun c => (Normal c, c)) s      (* return redisClient *)
       else
         ((* logger.info(...) *)
          set_redisClient (Some (createRedisClient false)) ;;
          (fun s => (coonect, s)) ;;                    (* setupRedisEvents.coonect() *)
          (* logger.info(...) *)
          set_redisClient (Some (createRedisClient false)) ;;
          (* setupRedisEvents(redisClient) *)
          on_redisClient (connect reply_main) ;;
          (* logger.info(...) *)
          set_pubSubClient (Some (createRedisClient true)) ;;
          (* setupRedisEvents(pubSubClient, true) *)
          on_pubSubClient (connect reply_pubsub) ;;
          set_isConnected true ;;
          (* logger.info(...) *)
          on_redisClient (fun c => (Normal c, c))) s)
    (fun error =>
       set_lastError (Some error) ;;
       (* logger.error(...) *)
       throw error).

Definition connectRedis (reply_main reply_pubsub : completion unit) : M client :=
  connectRedis_body (Throw (TypeError "setupRedisEvents.coonect is not a function"))
    reply_main reply_pubsub.

(** *** disconnectRedis (lines 228-251)

    [reply_pubsub] and [reply_main] are how the two [quit()] calls end. *)
Definition disconnectRedis (reply_pubsub reply_main : completion unit) : M unit :=
  try_catch
    ((fun s =>
        if negb (not_open (pubSubClient s)) then
          ((* logger.info(...) *)
           on_pubSubClient (quit reply_pubsub) ;;
           set_pubSubClient None) s
        else (Normal tt, s)) ;;
     (fun s =>
        if negb (not_open (redisClient s)) then
          ((* logger.info(...) *)
           on_redisClient (quit reply_main) ;;
           set_redisClient None) s
        else (Normal tt, s)) ;;
     set_isConnected false ;;
     subscriptions_clear ;;
     (* logger.info(...) *)
     ret tt)
    (fun error =>
       (* logger.error(...) *)
       throw error).

(** *** getRedisHealth (lines 351-362)

    [main_ready] and [pubsub_ready] are what [isReady] reads, at the time of
    the call, on each client that exists ([client?.isReady || false] is
    [false] on [null]).  The client sets and clears [isReady] itself as its
    connection comes and goes; no statement of [redis.js] writes it. *)
Record health := mk_health {
  status : string;
  health_isConnected : bool;
  health_lastError : option js_error;
  health_lastReconnectTime : option Z;
  subscriptionCount : nat;
  clientReady : bool;
  pubSubClientReady : bool;
  health_reconnectAttempts : Z
}.

Definition getRedisHealth (main_ready pubsub_ready : bool) (s : state) : health :=
  mk_health
    (if isConnected (connectionState s) then "healthy" else "unhealthy")
    (isConnected (connectionState s))
    (lastError (connectionState s))
    (lastReconnectTime (connectionState s))
    (List.length (subscriptions (connectionState s)))
    (match redisClient s with Some _ => main_ready | None => false end)
    (match pubSubClient s with Some _ => pubsub_ready | None => false end)
    (reconnectAttempts (connectionState s)).

(** [getRedisClient] and [getRedisPubSubClient] (lines 368, 374) *)
Definition getRedisClient (s : state) : option client := redisClient s.
Definition getRedisPubSubClient (s : state) : option client := pubSubClient s.

(** *** The module used through its exports

    One call of an exported function, with the replies of the client calls
    it makes; [loaded] is the module's state when it has just been loaded. *)
Inductive api_call : Type :=
| Call_connectRedis (reply_main reply_pubsub : completion unit)
| Call_disconnectRedis (reply_pubsub reply_main : completion unit)
| Call_subscribeTochannel (channel : string) (callback : fn) (now : Z)
    (reply : completion unit)
| Call_subscribeTopattern (pattern : string) (callback : fn) (now : Z)
    (reply : completion unit)
| Call_publishToChannel (channel message : jsval) (reply : completion unit).

(** How the call ends (its value dropped) and the state it leaves. *)
Definition api (a : api_call) (s : state) : completion unit * state :=
  match a with
  | Call_connectRedis r1 r2 =>
      let (r, s') := connectRedis r1 r2 s in
      (match r with Normal _ => Normal tt | Throw e => Throw e end, s')
  | Call_disconnectRedis r1 r2 => disconnectRedis r1 r2 s
  | Call_subscribeTochannel channel callback now reply =>
      subscribeTochannel channel callback now reply s
  | Call_subscribeTopattern pattern callback now reply =>
      subscribeTopattern pattern callback now reply s
  | Call_publishToChannel channel message reply =>
      publishToChannel channel message reply s
  end.

Fixpoint api_run (calls : list api_call) (s : state) : state :=
  match calls with
  | [] => s
  | a :: rest => api_run rest (snd (api a s))
  end.

Definition loaded : state := mk_state None None initial_connectionState ∅.

(** Every registry entry was written by [subscribeTochannel] or
    [subscribeTopattern]. *)
Definition registry_written (s : state) : Prop :=
  ∀ text, text ∈ subscriptions (connectionState s) →
    ∃ channel callback, text = subscription_text channel callback.

(** A state used as an example: both clients open, and the subscription of
    an anonymous callback to [lobby] recorded. *)
Definition both_open : state :=
  mk_state (Some (set_isOpen true (createClient false)))
    (Some (set_isOpen true (createClient true)))
    (mk_connection_state true None 0 None [subscription_text "lobby" "callback_5"])
    (<["callback_5" := mk_fn EmptyString 3]> ∅).

End Lifecycle.

(** ** [socket.js]: frames of one socket, and the listeners the relay leaves *)

Module RelayModel.
Import JS NodeRedis SocketIO SocketService.

(** A 'join' or a 'leave' frame. *)
Inductive room_frame : Type :=
| Frame_join (room : string)
| Frame_leave (room : string).

Definition handle_frame (id : string) (f : room_frame) : R unit :=
  match f with
  | Frame_join room => on_join id room
  | Frame_leave room => on_leave id room
  end.

(** The frames of one socket, handled in the order received. *)
Fixpoint replay (id : string) (frames : list room_frame) (st : state) : state :=
  match frames with
  | [] => st
  | f :: rest => replay id rest (snd (handle_frame id f st))
  end.

(** What the last frame that names [room] asked for: [Some true] for a
    join, [Some false] for a leave, [None] if no frame names the room. *)
Fixpoint last_frame (room : string) (frames : list room_frame) : option bool :=
  match frames with
  | [] => None
  | f :: rest =>
      match last_frame room rest with
      | Some b => Some b
      | None =>
          match f with
          | Frame_join r => if decide (r = room) then Some true else None
          | Frame_leave r => if decide (r = room) then Some false else None
          end
      end
  end.

(** The listeners the pub/sub client holds for a channel, and for a pattern. *)
Definition channel_listeners (key : string) (s : Redis.state) : list listener :=
  match Redis.pubSubClient s with
  | Some c => default [] (channels c !! key)
  | None => []
  end.

Definition pattern_listeners (key : string) (s : Redis.state) : list listener :=
  match Redis.pubSubClient s with
  | Some c => default [] (patterns c !! key)
  | None => []
  end.

(** [k] copies of a list, one after the other. *)
Definition copies {A} (k : nat) (l : list A) : list A := List.concat (replicate k l).

(** What holds of the broker clients in every state the relay reaches:
    a channel listener is a [handleMesage] closure made by an earlier
    connection, a pattern listener is an arrow function written by
    [resubscribeTochannels], and no client has been asked to publish. *)
Record listeners_invariant (st : state) : Prop := mk_listeners_invariant {
  channel_handlers : ∀ key l,
    l ∈ channel_listeners key (redis st) →
    ∃ n, l = L_fn (mk_fn "handleMesage" n) ∧ (n < closures st)%nat;
  pattern_wrappers : ∀ key l,
    l ∈ pattern_listeners key (redis st) → ∃ name, l = L_resub_pattern name;
  nothing_published : ∀ which c,
    get_client which (redis st) = Some c → publish_calls c = []
}.


(** Three states used as examples, all with the two broker clients open:
    two clients have connected; the same, and the first has joined the room
    [chat:*]; one client has connected and the pub/sub client has then
    emitted 'ready'. *)
Definition two_clients : state :=
  default (init (Some true) (Some true))
    (run [Connection "s1" 1 (Normal tt); Connection "s2" 2 (Normal tt)]
       (init (Some true) (Some true))).

Definition two_in_chat : state :=
  default (init (Some true) (Some true))
    (run [Connection "s1" 1 (Normal tt); Connection "s2" 2 (Normal tt);
          Join "s1" "chat:*"]
       (init (Some true) (Some true))).

Definition resubscribed : state :=
  default (init (Some true) (Some true))
    (run [Connection "s1" 1 (Normal tt);
          ClientEvent PubSub Redis.Ev_ready (fun _ => Normal tt)]
       (init (Some true) (Some true))).

End RelayModel.

(** * Properties *)

(** ** JSON: what is written is read back *)

Module JSONFacts.
Import JS.

Lemma append_assoc (a b c : string) : (a +:+ b) +:+ c = a +:+ (b +:+ c).
Proof.
  induction a as [|x a IH]; [done|].
  change (String x ((a +:+ b) +:+ c) = String x (a +:+ (b +:+ c))). by f_equal.
Qed.

(** Each of the 256 code units is read back from what [quote_char] wrote. *)
Lemma unquote_quote_char c rest :
  unquote_body (quote_char c +:+ rest) = prepend c (unquote_body rest).
Proof. destruct c as [[] [] [] [] [] [] [] []]; reflexivity. Qed.

Lemma unquote_quote_body s rest :
  unquote_body (quote_body s +:+ String dquote rest) = Some (s, rest).
Proof.
  induction s as [|c s IH]; [reflexivity|].
  simpl. rewrite append_assoc, unquote_quote_char, IH. reflexivity.
Qed.

Lemma parse_string_quote s rest :
  parse_string (JSON_quote s +:+ rest) = Some (s, rest).
Proof.
  unfold JSON_quote, parse_string.
  change (unquote_body ((quote_body s +:+ String dquote EmptyString) +:+ rest)
          = Some (s, rest)).
  rewrite append_assoc.
  change (String dquote EmptyString +:+ rest) with (String dquote rest).
  apply unquote_quote_body.
Qed.

Lemma parse_prop_quote key value rest :
  parse_prop (JSON_quote key +:+ String ":" (JSON_quote value +:+ rest))
  = Some ((key, value), rest).
Proof.
  unfold parse_prop. rewrite parse_string_quote. simpl.
  by rewrite parse_string_quote.
Qed.

Lemma subscription_text_eq channel callback :
  Redis.subscription_text channel callback
  = String "{" (JSON_quote "channel" +:+ String ":" (JSON_quote channel +:+
      String "," (JSON_quote "callback" +:+ String ":" (JSON_quote callback +:+ "}")))).
Proof.
  unfold Redis.subscription_text.
  cbn [JSON_stringify omap list_omap mbind default snd fst join_comma option_bind].
  unfold id. rewrite !append_assoc. reflexivity.
Qed.

(** A registry entry determines the channel and the callback name it was
    written for. *)
Lemma parse_subscription_text channel callback :
  Redis.parse_subscription (Redis.subscription_text channel callback)
  = Some (channel, callback).
Proof.
  unfold Redis.parse_subscription, JSON_parse_pair.
  rewrite subscription_text_eq. simpl expect. cbv iota.
  rewrite parse_prop_quote. simpl expect. cbv iota.
  rewrite parse_prop_quote. reflexivity.
Qed.

Lemma subscription_text_inj channel callback channel' callback' :
  Redis.subscription_text channel callback = Redis.subscription_text channel' callback' →
  channel = channel' ∧ callback = callback'.
Proof.
  intros Heq. apply (f_equal Redis.parse_subscription) in Heq.
  rewrite !parse_subscription_text in Heq. by injection Heq.
Qed.

End JSONFacts.

(** ** The broker client *)

Module RedisFacts.
Import JS NodeRedis Redis.

Lemma subscribeTochannel_not_open channel callback now reply s :
  not_open (pubSubClient s) = true →
  subscribeTochannel channel callback now reply s
  = (Throw (Error "Redis PubSub client not connected"), s).
Proof. intros H. unfold subscribeTochannel. by rewrite H. Qed.

(** The call on an open client, written out: the completion is the
    client's reply, and the three stores are updated in source order. *)
Lemma subscribeTochannel_open channel callback now reply s c :
  pubSubClient s = Some c → isOpen c = true →
  subscribeTochannel channel callback now reply s
  = (reply,
     mk_state (redisClient s)
       (Some (snd (subscribe channel (L_fn callback) reply c)))
       (mk_connection_state
          (isConnected (connectionState s)) (lastError (connectionState s))
          (reconnectAttempts (connectionState s))
          (lastReconnectTime (connectionState s))
          (set_add
             (subscription_text channel
                (name_or callback ("callback_" +:+ pretty now)))
             (subscriptions (connectionState s))))
       (if decide (fn_name callback = EmptyString)
        then <[name_or callback ("callback_" +:+ pretty now) := callback]> (global s)
        else global s)).
Proof.
  intros Hc Ho. unfold subscribeTochannel, not_open. rewrite Hc, Ho. simpl.
  unfold try_catch, bind, on_pubSubClient, subscriptions_add, update_connectionState.
  destruct (decide (fn_name callback = EmptyString)); simpl; rewrite Hc;
    destruct reply as [[]|err]; reflexivity.
Qed.

Lemma elem_of_set_add x y l : x ∈ set_add y l ↔ x = y ∨ x ∈ l.
Proof.
  unfold set_add. case_decide.
  - split; [auto | intros [->|]; done].
  - rewrite elem_of_app, list_elem_of_singleton. tauto.
Qed.

Lemma set_add_idemp y l : set_add y (set_add y l) = set_add y l.
Proof.
  unfold set_add at 1. rewrite decide_True; [done|].
  apply elem_of_set_add. by left.
Qed.

Lemma set_add_NoDup y l : NoDup l → NoDup (set_add y l).
Proof.
  intros Hl. unfold set_add. case_decide; [done|].
  apply NoDup_app. split; [done|]. split; [|apply NoDup_singleton].
  intros x Hx ->%list_elem_of_singleton. done.
Qed.

(** What the loop of [resubscribeTochannels] does with an entry that
    [subscribeTochannel] or [subscribeTopattern] wrote: it subscribes one of
    its own arrow functions, never the callback. *)
Lemma resubscribe_one_text channel callback reply c :
  resubscribe_one (subscription_text channel callback) reply c
  = if includes "*"%char channel
    then pSubscribe channel (L_resub_pattern callback) (reply channel) c
    else subscribe channel (L_resub_channel callback) (reply channel) c.
Proof.
  unfold resubscribe_one. by rewrite JSONFacts.parse_subscription_text.
Qed.

(** A function is on [global] under its name only if the module put it
    there, which it does for anonymous callbacks alone: for a name that is
    not on [global] the channel listener calls nothing, and the pattern
    listener throws whatever [global] holds. *)
Lemma listener_body_channel_unbound callback s :
  global s !! callback = None →
  listener_body (L_resub_channel callback) s = (Normal None, s).
Proof. intros H. simpl. by rewrite H. Qed.

Lemma listener_body_pattern callback s :
  listener_body (L_resub_pattern callback) s = (Throw (ReferenceError "back"), s).
Proof. reflexivity. Qed.

End RedisFacts.

Module BrokerClient.
Import JS NodeRedis Redis RedisFacts.

(** C5, the code as written: for every retry number the reconnection
    strategy neither returns a delay nor returns the fatal error; its first
    statement on either branch assigns through the undeclared identifier
    [connectState], so the call throws a ReferenceError and the module's state
    is left as it was.  (The backoff [min(1000 * 2^retries, 60000)] and the
    bound of 12 attempts are what the statements after it would compute.) *)
Theorem reconnectStrategy_throws (retries : Z) (s : state) :
  reconnectStrategy retries s = (Throw (ReferenceError "connectState"), s).
Proof. unfold reconnectStrategy. by case_decide. Qed.

(** C6, amended: for a callback that has a function name, or when both
    calls read the same clock value, a second [subscribeTochannel] for the same
    channel and callback leaves the module's state (registry, [global], and the
    client's listeners) as the first call left it, whatever the client answers
    to the second call. *)
Theorem subscribe_twice_same_name channel callback t1 t2 reply2 s :
  fn_name callback ≠ EmptyString ∨ t1 = t2 →
  snd (subscribeTochannel channel callback t2 reply2
         (snd (subscribeTochannel channel callback t1 (Normal tt) s)))
  = snd (subscribeTochannel channel callback t1 (Normal tt) s).
Proof.
  intros Hname.
  destruct (not_open (pubSubClient s)) eqn:Hopen.
  { rewrite (subscribeTochannel_not_open _ _ t1 _ s) by done. simpl.
    by rewrite subscribeTochannel_not_open. }
  unfold not_open in Hopen. destruct (pubSubClient s) as [c|] eqn:Hc; [|done].
  apply negb_false_iff in Hopen.
  rewrite (subscribeTochannel_open channel callback t1 (Normal tt) s c) by done. simpl.
  erewrite subscribeTochannel_open; [|simpl; reflexivity|simpl; done]. simpl.
  assert (name_or callback ("callback_" +:+ pretty t2)
          = name_or callback ("callback_" +:+ pretty t1)) as ->.
  { unfold name_or. case_decide; [|done]. destruct Hname; [done | by subst]. }
  rewrite set_add_idemp. f_equal.
  - f_equal. destruct reply2 as [[]|err]; simpl; [|done].
    rewrite lookup_insert_eq. simpl.
    rewrite insert_insert_eq.
    destruct (decide (L_fn callback ∈ default [] (channels c !! channel))) as [Hin|Hn].
    + by rewrite decide_True.
    + rewrite decide_True; [done|]. apply elem_of_app. right.
      by apply list_elem_of_singleton.
  - case_decide; [|done]. by rewrite insert_insert_eq.
Qed.

(** The relay's own subscription, made twice on an open client. *)
Lemma subscribe_twice_witness :
  let s := mk_state None (Some (set_isOpen true (createClient true)))
             initial_connectionState ∅ in
  let f := mk_fn "handleMesage" 0 in
  (fn_name f ≠ EmptyString ∨ 1 = 2)
  ∧ snd (subscribeTochannel "chat:*" f 2 (Normal tt)
           (snd (subscribeTochannel "chat:*" f 1 (Normal tt) s)))
    = snd (subscribeTochannel "chat:*" f 1 (Normal tt) s).
Proof.
  assert (H : fn_name (mk_fn "handleMesage" 0) ≠ EmptyString ∨ 1 = 2)
    by (left; discriminate).
  split; [exact H|].
  exact (subscribe_twice_same_name "chat:*" (mk_fn "handleMesage" 0) 1 2 (Normal tt) _ H).
Defined.

(** C6 as stated fails for an anonymous callback: the second call, made at
    another clock reading, records a second registry entry and a second
    binding on [global]. *)
Lemma subscribe_twice_anonymous :
  let s := mk_state None (Some (set_isOpen true (createClient true)))
             initial_connectionState ∅ in
  let f := mk_fn EmptyString 7 in
  let once := snd (subscribeTochannel "lobby" f 1 (Normal tt) s) in
  let twice := snd (subscribeTochannel "lobby" f 2 (Normal tt) once) in
  subscriptions (connectionState once) = [subscription_text "lobby" "callback_1"]
  ∧ subscriptions (connectionState twice)
    = [subscription_text "lobby" "callback_1"; subscription_text "lobby" "callback_2"]
  ∧ global once !! "callback_2" = None
  ∧ global twice !! "callback_2" = Some f
  ∧ twice ≠ once.
Proof.
  repeat split; try (vm_compute; reflexivity).
  intros H.
  apply (f_equal (fun s => List.length (subscriptions (connectionState s)))) in H.
  vm_compute in H. discriminate.
Qed.

(** C10: while the pub/sub client is null or not open, [subscribeTochannel]
    throws, and the registry (indeed the whole state of the module) is what
    it was before the call. *)
Theorem subscribe_rejected_records_nothing channel callback now reply s :
  pubSubClient s = None ∨ (∃ c, pubSubClient s = Some c ∧ isOpen c = false) →
  fst (subscribeTochannel channel callback now reply s)
    = Throw (Error "Redis PubSub client not connected")
  ∧ subscriptions (connectionState (snd (subscribeTochannel channel callback now reply s)))
    = subscriptions (connectionState s)
  ∧ snd (subscribeTochannel channel callback now reply s) = s.
Proof.
  intros H. rewrite subscribeTochannel_not_open; [done|].
  destruct H as [->|(c & -> & Hc)]; simpl; [done | by rewrite Hc].
Qed.

(** The module as loaded: no pub/sub client yet. *)
Lemma subscribe_rejected_witness :
  let s := mk_state None None initial_connectionState ∅ in
  (pubSubClient s = None ∨ (∃ c, pubSubClient s = Some c ∧ isOpen c = false))
  ∧ fst (subscribeTochannel "chat:*" (mk_fn "handleMesage" 0) 0 (Normal tt) s)
    = Throw (Error "Redis PubSub client not connected")
  ∧ subscriptions (connectionState
      (snd (subscribeTochannel "chat:*" (mk_fn "handleMesage" 0) 0 (Normal tt) s)))
    = subscriptions (connectionState s)
  ∧ snd (subscribeTochannel "chat:*" (mk_fn "handleMesage" 0) 0 (Normal tt) s) = s.
Proof.
  assert (H : pubSubClient (mk_state None None initial_connectionState ∅) = None
              ∨ (∃ c, pubSubClient (mk_state None None initial_connectionState ∅) = Some c
                      ∧ isOpen c = false))
    by (left; reflexivity).
  split; [exact H|].
  exact (subscribe_rejected_records_nothing "chat:*" (mk_fn "handleMesage" 0) 0
           (Normal tt) _ H).
Defined.



(** C7, the code as written: the relay's handler [handleMesage] is
    subscribed on an open client to the channels [chat:*] and [lobby]; the
    client then becomes ready again.  The resubscription registers, for
    [chat:*], a pattern listener that throws a ReferenceError each time it is
    called, and for [lobby] a channel listener that finds no function under
    the recorded name and calls nothing: neither calls the handler the
    subscription was made with. *)
Theorem resubscription_drops_handler :
  let handler := mk_fn "handleMesage" 0 in
  let s0 := mk_state None (Some (set_isOpen true (createClient true)))
              initial_connectionState ∅ in
  let s1 := snd (subscribeTochannel "chat:*" handler 0 (Normal tt) s0) in
  let s2 := snd (subscribeTochannel "lobby" handler 0 (Normal tt) s1) in
  ∃ c2 c3 s3,
    pubSubClient s2 = Some c2
    ∧ channels c2 !! "chat:*" = Some [L_fn handler]
    ∧ channels c2 !! "lobby" = Some [L_fn handler]
    ∧ setupRedisEvents c2 true Ev_ready (fun _ => Normal tt) s2 = (Normal c3, s3)
    ∧ patterns c3 !! "chat:*" = Some [L_resub_pattern "handleMesage"]
    ∧ channels c3 !! "lobby" = Some [L_fn handler; L_resub_channel "handleMesage"]
    ∧ fst (listener_body (L_resub_pattern "handleMesage") s3)
      = Throw (ReferenceError "back")
    ∧ fst (listener_body (L_resub_channel "handleMesage") s3) = Normal None.
Proof.
  eexists _, _, _. repeat split; vm_compute; reflexivity.
Qed.

End BrokerClient.

(** ** The room tables of the socket.io server *)

Module SocketIOFacts.
Import SocketIO.

(** Each operation of the server keeps the room tables consistent. *)
Lemma consistent_empty : consistent empty_server.
Proof.
  split; simpl.
  - intros id room. rewrite !lookup_empty. simpl. set_solver.
  - intros room. rewrite lookup_empty. done.
  - intros id. rewrite lookup_empty. split; [intros [? ?]; done | set_solver].
Qed.

Lemma lookup_default_insert (m : gmap string (gset string)) k k' v :
  default ∅ (<[k := v]> m !! k') = if decide (k = k') then v else default ∅ (m !! k').
Proof.
  destruct (decide (k = k')) as [->|Hne].
  - by rewrite lookup_insert_eq.
  - by rewrite lookup_insert_ne.
Qed.

(** The members of every room after [adapter._del(room, id)]. *)
Lemma rooms_del_lookup room id (rs : gmap string (gset string)) room' :
  default ∅ (rooms_del room id rs !! room')
  = if decide (room = room') then default ∅ (rs !! room) ∖ {[id]}
    else default ∅ (rs !! room').
Proof.
  unfold rooms_del. destruct (rs !! room) as [m|] eqn:Hm.
  - destruct (decide (m ∖ {[id]} = ∅)) as [He|He].
    + destruct (decide (room = room')) as [->|Hn].
      * rewrite lookup_delete_eq. simpl. by rewrite He.
      * by rewrite lookup_delete_ne.
    + rewrite lookup_default_insert. by case_decide.
  - destruct (decide (room = room')) as [->|Hn]; [|done].
    rewrite Hm. simpl. set_solver.
Qed.

Lemma rooms_del_nonempty room id (rs : gmap string (gset string)) :
  (∀ r, rs !! r ≠ Some ∅) → ∀ r, rooms_del room id rs !! r ≠ Some ∅.
Proof.
  intros Hne r. unfold rooms_del. destruct (rs !! room) as [m|] eqn:Hm; [|apply Hne].
  destruct (decide (m ∖ {[id]} = ∅)) as [He|He].
  - destruct (decide (room = r)) as [->|Hn].
    + by rewrite lookup_delete_eq.
    + rewrite lookup_delete_ne by done. apply Hne.
  - destruct (decide (room = r)) as [->|Hn].
    + rewrite lookup_insert_eq. congruence.
    + rewrite lookup_insert_ne by done. apply Hne.
Qed.

(** The members of every room after the loop of [adapter.delAll(id)]. *)
Lemma leave_all_lookup id (l : list string) (rs : gmap string (gset string)) room :
  default ∅ (foldr (fun r acc => rooms_del r id acc) rs l !! room)
  = if decide (room ∈ l) then default ∅ (rs !! room) ∖ {[id]}
    else default ∅ (rs !! room).
Proof.
  induction l as [|r l IH]; simpl.
  - done.
  - rewrite rooms_del_lookup. destruct (decide (r = room)) as [->|Hn].
    + rewrite IH. rewrite (decide_True (P := room ∈ room :: l)) by set_solver.
      case_decide; set_solver.
    + rewrite IH. destruct (decide (room ∈ l)).
      * by rewrite decide_True by set_solver.
      * by rewrite decide_False by set_solver.
Qed.

Lemma leave_all_nonempty id (l : list string) (rs : gmap string (gset string)) :
  (∀ r, rs !! r ≠ Some ∅) →
  ∀ r, foldr (fun r acc => rooms_del r id acc) rs l !! r ≠ Some ∅.
Proof.
  intros Hne. induction l as [|r' l IH]; simpl; [done|].
  by apply rooms_del_nonempty.
Qed.

Lemma consistent_connect id sv :
  consistent sv → consistent (socket_connect id sv).
Proof.
  intros [Hrs Hne Hss]. split; simpl.
  - intros id' room'. rewrite !lookup_default_insert.
    specialize (Hrs id' room').
    repeat case_decide; subst; set_solver.
  - intros room'. destruct (decide (id = room')) as [->|Hn].
    + rewrite lookup_insert_eq. intros [=]. set_solver.
    + rewrite lookup_insert_ne by done. apply Hne.
  - intros id'. destruct (decide (id = id')) as [->|Hn].
    + rewrite lookup_insert_eq. split; [set_solver | eauto].
    + rewrite lookup_insert_ne by done. rewrite Hss. set_solver.
Qed.

Lemma consistent_join id room sv :
  consistent sv → id ∈ sockets sv → consistent (socket_join id room sv).
Proof.
  intros [Hrs Hne Hss] Hin. split; simpl.
  - intros id' room'. rewrite !lookup_default_insert.
    specialize (Hrs id' room').
    repeat case_decide; subst; set_solver.
  - intros room'. destruct (decide (room = room')) as [->|Hn].
    + rewrite lookup_insert_eq. intros [=]. set_solver.
    + rewrite lookup_insert_ne by done. apply Hne.
  - intros id'. destruct (decide (id = id')) as [->|Hn].
    + rewrite lookup_insert_eq. split; [done | eauto].
    + rewrite lookup_insert_ne by done. apply Hss.
Qed.

Lemma consistent_leave id room sv :
  consistent sv → consistent (socket_leave id room sv).
Proof.
  intros [Hrs Hne Hss]. split; simpl.
  - intros id' room'. rewrite rooms_del_lookup.
    specialize (Hrs id' room') as Hrs1. specialize (Hrs id' room) as Hrs2.
    destruct (sids sv !! id) as [js|] eqn:Hj.
    + rewrite lookup_default_insert.
      repeat case_decide; subst; rewrite ?Hj in *; simpl in *; set_solver.
    + destruct (decide (id = id')) as [->|Hn].
      * rewrite Hj in *. simpl in *. case_decide; subst; set_solver.
      * case_decide; subst; set_solver.
  - by apply rooms_del_nonempty.
  - intros id'. destruct (sids sv !! id) as [js|] eqn:Hj; [|apply Hss].
    destruct (decide (id = id')) as [->|Hn].
    + rewrite lookup_insert_eq. rewrite <- Hss, Hj. split; eauto.
    + rewrite lookup_insert_ne by done. apply Hss.
Qed.

Lemma consistent_close id sv :
  consistent sv → consistent (socket_close id sv).
Proof.
  intros [Hrs Hne Hss]. unfold socket_close, adapter_delAll.
  destruct (sids sv !! id) as [js|] eqn:Hj; split; simpl.
  - intros id' room'. rewrite leave_all_lookup.
    specialize (Hrs id' room') as Hrs1. specialize (Hrs id room') as Hrs2.
    rewrite Hj in Hrs2. simpl in Hrs2.
    destruct (decide (id = id')) as [->|Hn].
    + rewrite lookup_delete_eq. simpl. case_decide; set_solver.
    + rewrite lookup_delete_ne by done. case_decide; set_solver.
  - by apply leave_all_nonempty.
  - intros id'. destruct (decide (id = id')) as [->|Hn].
    + rewrite lookup_delete_eq. split; [intros [? ?]; done | set_solver].
    + rewrite lookup_delete_ne by done. rewrite Hss. set_solver.
  - done.
  - done.
  - intros id'. rewrite Hss. split; [|set_solver].
    intros Hin. apply elem_of_difference. split; [done|].
    intros ->%elem_of_singleton. apply Hss in Hin. rewrite Hj in Hin.
    by destruct Hin.
Qed.

Lemma consistent_emit room event payload sv :
  consistent sv → consistent (to_emit room event payload sv).
Proof. by intros [? ? ?]. Qed.

Lemma consistent_on_disconnect id sv :
  consistent sv → consistent (socket_on_disconnect id sv).
Proof. by intros [? ? ?]. Qed.

(** [io.to(room)] addresses the sockets whose [rooms] set has the room. *)
Lemma recipients_joined id room sv :
  consistent sv → id ∈ recipients room sv ↔ joined id room sv.
Proof.
  intros [Hrs Hne Hss]. unfold recipients, joined.
  rewrite list_elem_of_filter, elem_of_elements, Hrs.
  split; [by intros [_ ?]|]. intros Hj. split; [|done].
  apply Hss. destruct (sids sv !! id); [eauto | set_solver].
Qed.

(** [socket.join] and [socket.leave] act on the socket's room set as set
    insertion and set removal, and leave the other sockets' room sets alone. *)
Lemma joined_join id room id' room' sv :
  joined id' room' (socket_join id room sv)
  ↔ (id' = id ∧ room' = room) ∨ joined id' room' sv.
Proof.
  unfold joined, socket_join, adapter_addAll. simpl.
  rewrite lookup_default_insert. case_decide; set_solver.
Qed.

Lemma joined_leave id room id' room' sv :
  joined id' room' (socket_leave id room sv)
  ↔ joined id' room' sv ∧ ¬ (id' = id ∧ room' = room).
Proof.
  unfold joined, socket_leave, adapter_del. simpl.
  destruct (sids sv !! id) as [js|] eqn:Hj.
  - rewrite lookup_default_insert. case_decide; subst; rewrite ?Hj; simpl; set_solver.
  - destruct (decide (id' = id)) as [->|Hn]; [rewrite Hj; simpl|]; set_solver.
Qed.

Create HintDb relay discriminated.
#[export] Hint Resolve consistent_empty consistent_connect consistent_join
  consistent_leave consistent_close consistent_emit consistent_on_disconnect : relay.

End SocketIOFacts.

(** ** The relay: what every reachable state satisfies *)

Module RelayFacts.
Import JS NodeRedis SocketIO SocketService SocketIOFacts RedisFacts.

(** The 'message' handler ends at its first statement. *)
Lemma on_message_throws id data reply st :
  on_message id data reply st = (Throw (ReferenceError "messageData"), st).
Proof. reflexivity. Qed.

Lemma parse_chat_subscription :
  Redis.parse_subscription chat_subscription = Some ("chat:*", "handleMesage").
Proof. vm_compute. reflexivity. Qed.

Lemma chat_only_subscribe l reply c :
  chat_only c → chat_only (snd (subscribe "chat:*" l reply c)).
Proof.
  intros Hc key. destruct reply as [[]|err]; simpl; [|apply Hc].
  destruct (decide (key = "chat:*")) as [->|Hn]; [done|].
  rewrite lookup_insert_ne by done. apply Hc.
Qed.

Lemma chat_only_pSubscribe l reply c :
  chat_only c → chat_only (snd (pSubscribe "chat:*" l reply c)).
Proof.
  intros Hc key. destruct reply as [[]|err]; simpl; [|apply Hc].
  destruct (decide (key = "chat:*")) as [->|Hn]; [done|].
  rewrite lookup_insert_ne by done. apply Hc.
Qed.

Lemma chat_only_resubscribe entries reply c :
  (∀ text, text ∈ entries → text = chat_subscription) →
  chat_only c → chat_only (snd (Redis.resubscribe_loop entries reply c)).
Proof.
  revert c. induction entries as [|text entries IH]; intros c Hall Hc; [done|].
  simpl. assert (text = chat_subscription) as -> by (apply Hall; left).
  unfold Redis.resubscribe_one. rewrite parse_chat_subscription.
  change (includes "*"%char "chat:*") with true. cbv iota.
  pose proof (chat_only_pSubscribe (L_resub_pattern "handleMesage") (reply "chat:*") c Hc) as Hc'.
  destruct (pSubscribe "chat:*" (L_resub_pattern "handleMesage") (reply "chat:*") c)
    as [[[]|err] c'] eqn:Hp; simpl in Hc'; [|done].
  apply IH; [|done]. intros t Ht. apply Hall. by right.
Qed.

Lemma chat_only_set_isOpen b c : chat_only c → chat_only (set_isOpen b c).
Proof. done. Qed.

(** Dispatching one broker frame, [message] on [channel], to a list of
    listeners. *)
Section dispatch.
Variables message channel : string.

(** The state with the frame fanned out once. *)
Let emitted (st : state) : state :=
  mk_state (redis st) (to_emit channel "message" message (io st)) (closures st).

(** Calling the listeners of a subscription writes packets and nothing else. *)
Lemma dispatch_redis ls st :
  redis (snd (dispatch ls message channel st)) = redis st
  ∧ closures (snd (dispatch ls message channel st)) = closures st
  ∧ disconnect_listeners (io (snd (dispatch ls message channel st)))
    = disconnect_listeners (io st)
  ∧ (consistent (io st) → consistent (io (snd (dispatch ls message channel st)))).
Proof.
  revert st. induction ls as [|l ls IH]; intros st; [done|].
  pose proof (IH (emitted st)) as (H1 & H2 & H3 & H4).
  specialize (IH st).
  simpl in *. unfold bind, call_redis.
  destruct l as [f|cb|cb]; simpl.
  - refine (conj H1 (conj H2 (conj H3 _))).
    intros Hc. apply H4. by apply consistent_emit.
  - done.
  - destruct (Redis.global (redis st) !! cb); simpl.
    + refine (conj H1 (conj H2 (conj H3 _))).
      intros Hc. apply H4. by apply consistent_emit.
    + destruct st as [r i n]. exact IH.
Qed.

(** The packets a dispatch writes are 'message' packets for sockets that
    [io.to(channel)] addresses; the room tables stay as they are. *)
Lemma dispatch_packets ls st :
  ∃ sent,
    io (snd (dispatch ls message channel st))
    = mk_server (sockets (io st)) (rooms (io st)) (sids (io st))
        (disconnect_listeners (io st)) (packets (io st) ++ sent)%list
    ∧ ∀ p, p ∈ sent → snd p = ("message", message) ∧ fst p ∈ recipients channel (io st).
Proof.
  revert st. induction ls as [|l ls IH]; intros st.
  { exists []. split; [|by intros p Hp%elem_of_nil].
    simpl. rewrite app_nil_r. by destruct (io st). }
  assert (Hemit : ∃ sent,
    io (snd (dispatch ls message channel (emitted st)))
    = mk_server (sockets (io st)) (rooms (io st)) (sids (io st))
        (disconnect_listeners (io st)) (packets (io st) ++ sent)%list
    ∧ ∀ p, p ∈ sent → snd p = ("message", message) ∧ fst p ∈ recipients channel (io st)).
  { destruct (IH (emitted st)) as (sent & Hio & Hsent).
    exists (map (fun id => (id, ("message", message))) (recipients channel (io st)) ++ sent)%list.
    split.
    - rewrite Hio. simpl. by rewrite app_assoc.
    - intros p [(id & -> & Hin)%list_elem_of_fmap|Hin]%elem_of_app; [by split|].
      by apply Hsent. }
  specialize (IH st).
  simpl. unfold bind, call_redis.
  destruct l as [f|cb|cb]; simpl.
  - exact Hemit.
  - exists []. split; [|by intros p Hp%elem_of_nil].
    rewrite app_nil_r. by destruct st as [r [] n].
  - destruct (Redis.global (redis st) !! cb); simpl; [exact Hemit|].
    by destruct st as [r i n].
Qed.

End dispatch.

(** A frame handed to the listeners: what [dispatch] writes, and the
    broker module as it was, but for the client having stopped if a listener
    threw. *)
Lemma deliver_state ls message channel st :
  io (deliver ls message channel st) = io (snd (dispatch ls message channel st))
  ∧ closures (deliver ls message channel st) = closures st
  ∧ (redis (deliver ls message channel st) = redis st
     ∨ redis (deliver ls message channel st) = listener_threw (redis st)).
Proof.
  destruct (dispatch_redis message channel ls st) as (H1 & H2 & _).
  unfold deliver. destruct (dispatch ls message channel st) as [[[]|e] st1]; simpl in *.
  - auto.
  - rewrite H1. auto.
Qed.

Lemma chat_only_stop_dispatching c : chat_only c → chat_only (stop_dispatching c).
Proof. done. Qed.

Lemma broker_invariant_threw s : broker_invariant s → broker_invariant (listener_threw s).
Proof.
  intros Hinv. unfold listener_threw.
  destruct (Redis.pubSubClient s) as [c|] eqn:Hc; [|done].
  destruct Hinv as [Hreg Htab Hglob]. split; simpl; [done | | done].
  intros c' [= <-]. apply chat_only_stop_dispatching. by apply Htab.
Qed.

Lemma run_disconnect_state n id st : snd (run_disconnect n id st) = st.
Proof. by destruct n. Qed.

Lemma invariant_init main pubsub : invariant (init main pubsub).
Proof.
  split; simpl.
  - apply consistent_empty.
  - split; simpl.
    + intros text Hin. by apply elem_of_nil in Hin.
    + intros c Hc key. destruct pubsub; simplify_eq/=.
      rewrite !lookup_empty. intros [[? ?]|[? ?]]; done.
    + done.
  - done.
Qed.


Lemma broker_invariant_subscribe n now reply s :
  broker_invariant s →
  broker_invariant
    (snd (Redis.subscribeTochannel "chat:*" (mk_fn "handleMesage" n) now reply s)).
Proof.
  intros [Hreg Htab Hglob].
  destruct (Redis.not_open (Redis.pubSubClient s)) eqn:Hopen.
  { by rewrite subscribeTochannel_not_open. }
  unfold Redis.not_open in Hopen.
  destruct (Redis.pubSubClient s) as [c|] eqn:Hc; [|done].
  apply negb_false_iff in Hopen.
  rewrite (subscribeTochannel_open _ _ _ _ _ c) by done.
  split; simpl.
  - intros text [->|Hin]%elem_of_set_add; [reflexivity | by apply Hreg].
  - intros c' [= <-]. apply chat_only_subscribe. by apply Htab.
  - done.
Qed.

Lemma broker_invariant_event which c ev reply s :
  broker_invariant s → get_client which s = Some c →
  broker_invariant
    (match Redis.setupRedisEvents c
             (match which with Main => false | PubSub => true end) ev reply s with
     | (Normal c', s') => put_client which c' s'
     | (Throw _, s') => s'
     end).
Proof.
  intros Hinv Hget.
  assert (Hc : which = PubSub → chat_only c).
  { intros ->. by apply (tables_chat _ Hinv). }
  destruct Hinv as [Hreg Htab Hglob].
  destruct ev, which; simpl; unfold Redis.bind; simpl;
    try (split; simpl; try done; by intros ? [= <-]; apply Hc).
  case_bool_decide; simpl.
  - unfold Redis.resubscribeTochannels. simpl.
    pose proof (chat_only_resubscribe
                  (Redis.subscriptions (Redis.connectionState s)) reply c
                  Hreg (Hc eq_refl)) as Hc'.
    destruct (Redis.resubscribe_loop _ reply c) as [r c']. simpl in *.
    split; simpl; try done. by intros ? [= <-].
  - split; simpl; try done. intros ? [= <-]. by apply Hc.
Qed.

(** Every event keeps the invariant. *)
Lemma invariant_step e st st' :
  invariant st → step e st = Some st' → invariant st'.
Proof.
  intros [Hio Hbr Hls] Hstep. destruct e; simpl in Hstep.
  - case_decide; [done|]. injection Hstep as <-.
    unfold bind, on_io, on_connection. simpl.
    pose proof (broker_invariant_subscribe (closures st) now reply (redis st) Hbr) as Hbr'.
    destruct (Redis.subscribeTochannel _ _ now reply (redis st)) as [r s'].
    split; simpl; [eauto with relay | done | done].
  - case_decide; [|done]. injection Hstep as <-.
    split; simpl; [eauto with relay | done | done].
  - case_decide; [|done]. injection Hstep as <-.
    split; simpl; [eauto with relay | done | done].
  - case_decide; [|done]. injection Hstep as <-. by split.
  - case_decide; [|done]. injection Hstep as <-.
    unfold bind, on_io. simpl. rewrite run_disconnect_state.
    split; simpl; [eauto with relay | done |].
    unfold socket_close, adapter_delAll. by destruct (sids (io st) !! id).
  - destruct (Redis.pubSubClient (redis st)) as [c|]; [|done].
    destruct (dispatching c && _); [|done]. injection Hstep as <-.
    destruct (dispatch_redis message channel
                (default [] ((if pattern then patterns c else channels c) !! key))
                st) as (_ & _ & H3 & H4).
    destruct (deliver_state
                (default [] ((if pattern then patterns c else channels c) !! key))
                message channel st) as (H0 & _ & Hr).
    split; [rewrite H0; by apply H4 | | by rewrite H0, H3].
    destruct Hr as [-> | ->]; [done | by apply broker_invariant_threw].
  - destruct (get_client which (redis st)) as [c|] eqn:Hget; [|done].
    injection Hstep as <-. split; simpl; [done| |done].
    destruct Hbr as [Hreg Htab Hglob].
    destruct which; split; simpl in *; try done.
    intros ? [= <-]. apply chat_only_set_isOpen. by apply Htab.
  - destruct (get_client which (redis st)) as [c|] eqn:Hget; [|done].
    pose proof (broker_invariant_event which c ev reply (redis st) Hbr Hget) as Hbr'.
    destruct (Redis.setupRedisEvents c _ ev reply (redis st)) as [[c'|err] s'];
      injection Hstep as <-; by split.
Qed.

Lemma reachable_invariant st : reachable st → invariant st.
Proof.
  intros (main & pubsub & evs & Hrun).
  revert Hrun. generalize (invariant_init main pubsub).
  generalize (init main pubsub) as st0.
  induction evs as [|e evs IH]; intros st0 Hinv Hrun; simpl in Hrun.
  - by injection Hrun as <-.
  - destruct (step e st0) as [st1|] eqn:Hstep; [|done].
    eapply IH; [|done]. by eapply invariant_step.
Qed.

End RelayFacts.

(** ** The relay: rooms, fan-out and subscriptions *)

Module Relay.
Import JS NodeRedis SocketIO SocketService SocketIOFacts RedisFacts RelayFacts.

Lemma socket_join_idemp id room sv :
  socket_join id room (socket_join id room sv) = socket_join id room sv.
Proof.
  unfold socket_join, adapter_addAll. simpl. f_equal.
  - rewrite lookup_insert_eq, insert_insert_eq. simpl. f_equal. set_solver.
  - rewrite lookup_insert_eq, insert_insert_eq. simpl. f_equal. set_solver.
Qed.

Lemma socket_leave_not_joined id room sv :
  consistent sv → ¬ joined id room sv → socket_leave id room sv = sv.
Proof.
  intros [Hrs Hne Hss] Hnj. unfold joined in Hnj.
  destruct sv as [so ro si dl pk]. unfold socket_leave, adapter_del. simpl in *.
  f_equal.
  - unfold rooms_del. destruct (ro !! room) as [m|] eqn:Hm; [|done].
    assert (id ∉ m) as Hid.
    { intros Hin. apply Hnj, Hrs. by rewrite Hm. }
    assert (m ∖ {[id]} = m) as -> by set_solver.
    rewrite decide_False; [by apply insert_id|].
    intros ->. by apply (Hne room).
  - destruct (si !! id) as [js|] eqn:Hj; [|done]. simpl in Hnj.
    assert (js ∖ {[room]} = js) as -> by set_solver.
    by apply insert_id.
Qed.

Lemma step_disconnect id st st' :
  step (Disconnect id) st = Some st' →
  redis st' = redis st ∧ io st' = socket_close id (io st).
Proof.
  simpl. case_decide; [|done]. intros [= <-].
  unfold bind, on_io. simpl. by rewrite run_disconnect_state.
Qed.

Lemma subscribed_chat_only channel s :
  broker_invariant s → subscribed channel s = true → channel = "chat:*".
Proof.
  intros [Hreg Htab Hglob]. unfold subscribed, recorded, listening.
  intros [Hrec|Hlis]%orb_true_iff.
  - apply bool_decide_eq_true_1, Exists_exists in Hrec as (text & Hin & Hparse).
    rewrite (Hreg text Hin), parse_chat_subscription in Hparse. by injection Hparse.
  - destruct (Redis.pubSubClient s) as [c|] eqn:Hc; [|done].
    apply (Htab c eq_refl).
    apply orb_true_iff in Hlis as [H|H]; apply bool_decide_eq_true_1 in H.
    + left. destruct (channels c !! channel); [eauto | done].
    + right. destruct (patterns c !! channel); [eauto | done].
Qed.

(** Whatever subscription a broker frame is for, and whichever listeners
    it has, the packets written for it go to sockets joined to the room
    named by the frame's channel. *)
Lemma delivery_only_to_the_room pattern key channel message st st' :
  reachable st → step (Delivery pattern key channel message) st = Some st' →
  ∃ sent,
    packets (io st') = (packets (io st) ++ sent)%list
    ∧ ∀ p, p ∈ sent → snd p = ("message", message) ∧ joined (fst p) channel (io st).
Proof.
  intros Hr Hstep. apply reachable_invariant in Hr as [Hio _ _].
  simpl in Hstep. destruct (Redis.pubSubClient (redis st)) as [c|]; [|done].
  destruct (dispatching c && _); [|done]. injection Hstep as <-.
  destruct (dispatch_packets message channel
              (default [] ((if pattern then patterns c else channels c) !! key))
              st) as (sent & Hsv & Hsent).
  destruct (deliver_state
              (default [] ((if pattern then patterns c else channels c) !! key))
              message channel st) as (-> & _).
  exists sent. split; [by rewrite Hsv|].
  intros p Hp. destruct (Hsent p Hp) as [Hev Hrec]. split; [done|].
  by apply (recipients_joined (fst p) channel (io st)).
Qed.

(** C9: in every state the relay reaches, handling 'join' twice for a
    socket and a room leaves the state that handling it once leaves, and
    handling 'leave' for a room the socket is not in leaves the state as it
    is: membership is a set. *)
Theorem join_leave_are_set_operations id room st :
  reachable st →
  snd (on_join id room (snd (on_join id room st))) = snd (on_join id room st)
  ∧ (¬ joined id room (io st) → snd (on_leave id room st) = st).
Proof.
  intros Hr. apply reachable_invariant in Hr as [Hio _ _]. split.
  - unfold on_join, on_io. simpl. by rewrite socket_join_idemp.
  - intros Hnj. unfold on_leave, on_io. simpl.
    rewrite socket_leave_not_joined by done. by destruct st.
Qed.

(** One connected client, and the room [lobby] it has not joined. *)
Lemma join_leave_witness :
  reachable one_client
  ∧ ¬ joined "s1" "lobby" (io one_client)
  ∧ snd (on_join "s1" "lobby" (snd (on_join "s1" "lobby" one_client)))
    = snd (on_join "s1" "lobby" one_client)
  ∧ snd (on_leave "s1" "lobby" one_client) = one_client.
Proof.
  assert (Hr : reachable one_client).
  { exists None, None, [Connection "s1" 0 (Normal tt)]. vm_compute. reflexivity. }
  assert (Hn : ¬ joined "s1" "lobby" (io one_client)).
  { unfold joined. apply (bool_decide_eq_false_1 _). vm_compute. reflexivity. }
  split; [exact Hr|]. split; [exact Hn|].
  destruct (join_leave_are_set_operations "s1" "lobby" one_client Hr) as [Hjoin Hleave].
  split; [exact Hjoin | exact (Hleave Hn)].
Defined.

(** C2: in every state the relay reaches, [handleMesage message channel]
    writes one 'message' packet carrying [message] to each socket that is in
    the room named [channel] when it runs, and writes nothing to any other
    socket. *)
Theorem fanout_reaches_exactly_the_room message channel st :
  reachable st →
  ∃ sent,
    packets (io (snd (handleMesage message channel st))) = (packets (io st) ++ sent)%list
    ∧ (∀ id, (id, ("message", message)) ∈ sent ↔ joined id channel (io st))
    ∧ (∀ p, p ∈ sent → snd p = ("message", message) ∧ joined (fst p) channel (io st)).
Proof.
  intros Hr. apply reachable_invariant in Hr as [Hio _ _].
  exists (map (fun id => (id, ("message", message))) (recipients channel (io st))).
  split; [done|]. split.
  - intros id. rewrite <- (recipients_joined id channel (io st)) by done.
    rewrite list_elem_of_fmap. split.
    + by intros (id' & [= ->] & Hin).
    + intros Hin. by exists id.
  - intros p (id & -> & Hin)%list_elem_of_fmap. split; [done|].
    by apply (recipients_joined id channel (io st)).
Qed.

(** One connected client, and a message for the room of its own id. *)
Lemma fanout_witness :
  reachable one_client
  ∧ ∃ sent,
      packets (io (snd (handleMesage "hi" "s1" one_client)))
      = (packets (io one_client) ++ sent)%list
      ∧ (∀ id, (id, ("message", "hi")) ∈ sent ↔ joined id "s1" (io one_client))
      ∧ (∀ p, p ∈ sent → snd p = ("message", "hi") ∧ joined (fst p) "s1" (io one_client)).
Proof.
  assert (Hr : reachable one_client).
  { exists None, None, [Connection "s1" 0 (Normal tt)]. vm_compute. reflexivity. }
  split; [exact Hr|].
  exact (fanout_reaches_exactly_the_room "hi" "s1" one_client Hr).
Defined.

(** C1, amended: in every state the relay reaches, a broker subscription
    exists for no channel other than the fixed [chat:*]; the handlers of
    'join' and 'leave' and a disconnect leave the broker module's state as it
    is, so they neither create nor remove a subscription; and accepting a
    connection while the pub/sub client is open leaves [chat:*] subscribed,
    whatever rooms exist. *)
Theorem subscriptions_do_not_follow_rooms st :
  reachable st →
  (∀ channel, subscribed channel (redis st) = true → channel = "chat:*")
  ∧ (∀ id room, redis (snd (on_join id room st)) = redis st
                ∧ redis (snd (on_leave id room st)) = redis st)
  ∧ (∀ id st', step (Disconnect id) st = Some st' → redis st' = redis st)
  ∧ (∀ id now reply c st',
       Redis.pubSubClient (redis st) = Some c → isOpen c = true →
       step (Connection id now reply) st = Some st' →
       subscribed "chat:*" (redis st') = true).
Proof.
  intros Hr. apply reachable_invariant in Hr as [Hio Hbr Hls].
  split; [|split; [|split]].
  - intros channel. by apply subscribed_chat_only.
  - done.
  - intros id st' Hstep. by apply step_disconnect in Hstep as [? _].
  - intros id now reply c st' Hc Ho Hstep. simpl in Hstep.
    case_decide; [done|]. injection Hstep as <-.
    unfold bind, on_io, on_connection. simpl.
    rewrite (subscribeTochannel_open _ _ _ _ _ c) by done. simpl.
    unfold subscribed, recorded. simpl. apply orb_true_iff. left.
    apply bool_decide_eq_true_2, Exists_exists. exists chat_subscription. split.
    + apply elem_of_set_add. by left.
    + by rewrite parse_chat_subscription.
Qed.

(** The state with one connected client is reachable. *)
Lemma subscriptions_witness :
  reachable one_client
  ∧ (∀ channel, subscribed channel (redis one_client) = true → channel = "chat:*")
  ∧ (∀ id room, redis (snd (on_join id room one_client)) = redis one_client
                ∧ redis (snd (on_leave id room one_client)) = redis one_client)
  ∧ (∀ id st', step (Disconnect id) one_client = Some st' → redis st' = redis one_client)
  ∧ (∀ id now reply c st',
       Redis.pubSubClient (redis one_client) = Some c → isOpen c = true →
       step (Connection id now reply) one_client = Some st' →
       subscribed "chat:*" (redis st') = true).
Proof.
  assert (Hr : reachable one_client).
  { exists None, None, [Connection "s1" 0 (Normal tt)]. vm_compute. reflexivity. }
  split; [exact Hr|].
  exact (subscriptions_do_not_follow_rooms one_client Hr).
Defined.

(** C1 as stated fails: with both broker clients open, a client connects
    and joins [lobby]; the room then has a member and no subscription. *)
Lemma joined_room_without_subscription :
  ∃ st,
    run [Connection "s1" 0 (Normal tt); Join "s1" "lobby"] (init (Some true) (Some true))
    = Some st
    ∧ members "lobby" (io st) = {["s1"]}
    ∧ subscribed "lobby" (redis st) = false.
Proof.
  eexists. split; [vm_compute; reflexivity|]. split; vm_compute; reflexivity.
Qed.

(** C4, amended: in every state the relay reaches, a disconnect takes the
    socket out of every room (each room keeps its other members, and the
    socket's own room set is empty afterwards) and leaves the broker
    module's state as it is: no subscription is removed. *)
Theorem disconnect_leaves_rooms_keeps_subscriptions id st st' :
  reachable st → step (Disconnect id) st = Some st' →
  (∀ room, members room (io st') = members room (io st) ∖ {[id]})
  ∧ (∀ room, ¬ joined id room (io st'))
  ∧ redis st' = redis st.
Proof.
  intros Hr Hstep. apply reachable_invariant in Hr as [Hio Hbr Hls].
  apply step_disconnect in Hstep as [Hredis Hio'].
  split; [|split; [|done]].
  - intros room. rewrite Hio'. unfold members, socket_close, adapter_delAll.
    destruct (sids (io st) !! id) as [js|] eqn:Hj; simpl.
    + rewrite leave_all_lookup. case_decide as Hin; [done|].
      assert (id ∉ default ∅ (rooms (io st) !! room)); [|set_solver].
      rewrite (rooms_sids _ Hio), Hj. simpl. by rewrite elem_of_elements in Hin.
    + assert (id ∉ default ∅ (rooms (io st) !! room)); [|set_solver].
      rewrite (rooms_sids _ Hio), Hj. simpl. set_solver.
  - intros room. rewrite Hio'. unfold joined, socket_close, adapter_delAll.
    destruct (sids (io st) !! id) as [js|] eqn:Hj; simpl.
    + rewrite lookup_delete_eq. simpl. set_solver.
    + rewrite Hj. simpl. set_solver.
Qed.

(** One connected client disconnects. *)
Lemma disconnect_witness :
  reachable one_client
  ∧ step (Disconnect "s1") one_client = Some one_client_gone
  ∧ (∀ room, members room (io one_client_gone)
             = members room (io one_client) ∖ {["s1"]})
  ∧ (∀ room, ¬ joined "s1" room (io one_client_gone))
  ∧ redis one_client_gone = redis one_client.
Proof.
  assert (Hr : reachable one_client).
  { exists None, None, [Connection "s1" 0 (Normal tt)]. vm_compute. reflexivity. }
  assert (Hstep : step (Disconnect "s1") one_client = Some one_client_gone)
    by (vm_compute; reflexivity).
  split; [exact Hr|]. split; [exact Hstep|].
  exact (disconnect_leaves_rooms_keeps_subscriptions "s1" one_client one_client_gone
           Hr Hstep).
Defined.

(** C4 as stated fails: with the pub/sub client open, a client connects,
    joins the room [chat:*] and disconnects; the room is left empty and the
    subscription for [chat:*] is still there. *)
Lemma empty_room_keeps_subscription :
  ∃ st1 st2,
    run [Connection "s1" 0 (Normal tt); Join "s1" "chat:*"] (init (Some true) (Some true))
    = Some st1
    ∧ members "chat:*" (io st1) = {["s1"]}
    ∧ subscribed "chat:*" (redis st1) = true
    ∧ step (Disconnect "s1") st1 = Some st2
    ∧ members "chat:*" (io st2) = ∅
    ∧ subscribed "chat:*" (redis st2) = true.
Proof.
  eexists _, _. split; [vm_compute; reflexivity|].
  repeat split; vm_compute; reflexivity.
Qed.

(** C3, amended: the 'message' handler makes no membership check.  However
    the evaluation of [messageData] ends, running the handler on two states
    that differ only in the socket.io server (so in who has joined what)
    ends the same way and leaves the same broker state; and the error the
    handler raises is never a NotJoined error. *)
Theorem message_handler_ignores_membership messageData id data reply st sv :
  fst (message_handler messageData id data reply (mk_state (redis st) sv (closures st)))
  = fst (message_handler messageData id data reply st)
  ∧ redis (snd (message_handler messageData id data reply
                  (mk_state (redis st) sv (closures st))))
    = redis (snd (message_handler messageData id data reply st))
  ∧ (∀ e, fst (on_message id data reply st) = Throw e → err_name e ≠ "NotJoined").
Proof.
  split; [|split].
  - unfold message_handler, bind, call_redis. simpl.
    destruct messageData as [md|err]; [|done].
    destruct (destructure md) as [v|err]; [|done]. simpl.
    by destruct (Redis.publishToChannel (property "room" v) (property "message" v)
                   reply (redis st)) as [[[]|?] ?].
  - unfold message_handler, bind, call_redis. simpl.
    destruct messageData as [md|err]; [|done].
    destruct (destructure md) as [v|err]; [|done]. simpl.
    by destruct (Redis.publishToChannel (property "room" v) (property "message" v)
                   reply (redis st)) as [[[]|?] ?].
  - intros e [= <-]. discriminate.
Qed.

(** C3 as stated fails: a connected client that has not joined [lobby]
    sends a message for it; the handler's error is a ReferenceError, not a
    NotJoined error. *)
Lemma unjoined_sender_gets_no_NotJoined :
  ∃ st,
    run [Connection "s1" 0 (Normal tt)] (init (Some true) (Some true)) = Some st
    ∧ members "lobby" (io st) = ∅
    ∧ fst (on_message "s1"
             (JObj [("room", JStr "lobby"); ("message", JStr "hi")]) (Normal tt) st)
      = Throw (ReferenceError "messageData")
    ∧ err_name (ReferenceError "messageData") = "ReferenceError".
Proof.
  eexists. split; [vm_compute; reflexivity|].
  repeat split; vm_compute; reflexivity.
Qed.

End Relay.

(** ** [redis.js]: connecting, disconnecting, health and the registry *)

Module LifecycleFacts.
Import JS NodeRedis Redis Lifecycle RedisFacts.

Lemma state_eta s :
  mk_state (redisClient s) (pubSubClient s) (connectionState s) (global s) = s.
Proof. by destruct s. Qed.

(** [connectRedis] when the main client is absent or closed: the call
    [setupRedisEvents.coonect()] throws, the catch block records the error. *)
Lemma connectRedis_not_open r1 r2 s :
  not_open (redisClient s) = true →
  connectRedis r1 r2 s
  = (Throw (TypeError "setupRedisEvents.coonect is not a function"),
     mk_state (Some (createRedisClient false)) (pubSubClient s)
       (mk_connection_state (isConnected (connectionState s))
          (Some (TypeError "setupRedisEvents.coonect is not a function"))
          (reconnectAttempts (connectionState s))
          (lastReconnectTime (connectionState s))
          (subscriptions (connectionState s)))
       (global s)).
Proof.
  intros H. unfold connectRedis, connectRedis_body, try_catch. rewrite H. reflexivity.
Qed.

Lemma connectRedis_open r1 r2 s c :
  redisClient s = Some c → isOpen c = true →
  connectRedis r1 r2 s = (Normal c, s).
Proof.
  intros Hc Ho. unfold connectRedis, connectRedis_body, try_catch, not_open, on_redisClient.
  rewrite Hc, Ho. simpl. rewrite <- Hc. by rewrite state_eta.
Qed.

Lemma subscribeTopattern_not_open pattern callback now reply s :
  not_open (pubSubClient s) = true →
  subscribeTopattern pattern callback now reply s
  = (Throw (Error "Redis PubSub client not connected"), s).
Proof. intros H. unfold subscribeTopattern. by rewrite H. Qed.

Lemma subscribeTopattern_open pattern callback now reply s c :
  pubSubClient s = Some c → isOpen c = true →
  subscribeTopattern pattern callback now reply s
  = (reply,
     mk_state (redisClient s)
       (Some (snd (pSubscribe pattern (L_fn callback) reply c)))
       (mk_connection_state
          (isConnected (connectionState s)) (lastError (connectionState s))
          (reconnectAttempts (connectionState s))
          (lastReconnectTime (connectionState s))
          (set_add
             (subscription_text pattern
                (name_or callback ("pattern_callback_" +:+ pretty now)))
             (subscriptions (connectionState s))))
       (if decide (fn_name callback = EmptyString)
        then <[name_or callback ("pattern_callback_" +:+ pretty now) := callback]> (global s)
        else global s)).
Proof.
  intros Hc Ho. unfold subscribeTopattern, not_open. rewrite Hc, Ho. simpl.
  unfold try_catch, bind, on_pubSubClient, subscriptions_add, update_connectionState.
  destruct (decide (fn_name callback = EmptyString)); simpl; rewrite Hc;
    destruct reply as [[]|err]; reflexivity.
Qed.

Lemma publishToChannel_not_open channel message reply s :
  not_open (redisClient s) = true →
  publishToChannel channel message reply s
  = (Throw (Error "Redis client not connected"), s).
Proof. intros H. unfold publishToChannel. by rewrite H. Qed.

(** [disconnectRedis] when no client is open: no [quit()] call is made. *)
Lemma disconnectRedis_none_open r1 r2 s :
  not_open (pubSubClient s) = true → not_open (redisClient s) = true →
  disconnectRedis r1 r2 s
  = (Normal tt,
     mk_state (redisClient s) (pubSubClient s)
       (mk_connection_state false (lastError (connectionState s))
          (reconnectAttempts (connectionState s))
          (lastReconnectTime (connectionState s)) [])
       (global s)).
Proof.
  intros H1 H2. unfold disconnectRedis, try_catch, bind. rewrite H1. simpl.
  rewrite H2. reflexivity.
Qed.

(** [disconnectRedis] when the first [quit()] rejects. *)
Lemma disconnectRedis_pubsub_fails e r2 s c :
  pubSubClient s = Some c → isOpen c = true →
  disconnectRedis (Throw e) r2 s
  = (Throw e,
     mk_state (redisClient s) (Some (set_isOpen false c)) (connectionState s) (global s)).
Proof.
  intros Hc Ho. unfold disconnectRedis, try_catch, bind, not_open, on_pubSubClient.
  rewrite Hc, Ho. reflexivity.
Qed.

(** [disconnectRedis] when every [quit()] it makes resolves. *)
Lemma disconnectRedis_succeeds r1 r2 s :
  not_open (pubSubClient s) = true ∨ r1 = Normal tt →
  not_open (redisClient s) = true ∨ r2 = Normal tt →
  disconnectRedis r1 r2 s
  = (Normal tt,
     mk_state
       (if not_open (redisClient s) then redisClient s else None)
       (if not_open (pubSubClient s) then pubSubClient s else None)
       (mk_connection_state false (lastError (connectionState s))
          (reconnectAttempts (connectionState s))
          (lastReconnectTime (connectionState s)) [])
       (global s)).
Proof.
  intros H1 H2. unfold disconnectRedis, try_catch, bind.
  destruct (not_open (pubSubClient s)) eqn:Hp; simpl.
  - destruct (not_open (redisClient s)) eqn:Hm; simpl.
    + reflexivity.
    + destruct H2 as [?| ->]; [done|].
      unfold not_open in Hm. destruct (redisClient s) as [c|] eqn:Hc; [|done].
      unfold on_redisClient. simpl. rewrite Hc. reflexivity.
  - destruct H1 as [?| ->]; [done|].
    unfold not_open in Hp. destruct (pubSubClient s) as [c|] eqn:Hc; [|done].
    unfold on_pubSubClient. simpl. rewrite Hc. simpl.
    destruct (not_open (redisClient s)) eqn:Hm; simpl.
    + reflexivity.
    + destruct H2 as [?| ->]; [done|].
      unfold not_open in Hm. destruct (redisClient s) as [c'|] eqn:Hc'; [|done].
      unfold on_redisClient. simpl. reflexivity.
Qed.

(** One exported call in a module that has never connected. *)
Lemma never_connected_step a s :
  pubSubClient s = None →
  redisClient s = None ∨ redisClient s = Some (createRedisClient false) →
  subscriptions (connectionState s) = [] →
  isConnected (connectionState s) = false →
  pubSubClient (snd (api a s)) = None
  ∧ (redisClient (snd (api a s)) = None
     ∨ redisClient (snd (api a s)) = Some (createRedisClient false))
  ∧ subscriptions (connectionState (snd (api a s))) = []
  ∧ isConnected (connectionState (snd (api a s))) = false.
Proof.
  intros Hp Hm Hs Hi.
  assert (Hpo : not_open (pubSubClient s) = true) by (by rewrite Hp).
  assert (Hmo : not_open (redisClient s) = true) by (by destruct Hm as [->| ->]).
  destruct a; simpl.
  - rewrite connectRedis_not_open by done. simpl. auto.
  - rewrite disconnectRedis_none_open by done. simpl. auto.
  - rewrite subscribeTochannel_not_open by done. simpl. auto.
  - rewrite subscribeTopattern_not_open by done. simpl. auto.
  - rewrite publishToChannel_not_open by done. simpl. auto.
Qed.

(** [resubscribeTochannels] catches what its loop throws and touches no
    module variable. *)
Lemma resubscribeTochannels_state c reply s :
  snd (resubscribeTochannels c reply s) = s
  ∧ ∃ c', fst (resubscribeTochannels c reply s) = Normal c'.
Proof.
  unfold resubscribeTochannels.
  destruct (resubscribe_loop _ reply c) as [r c']. simpl. eauto.
Qed.

(** The module's state after a 'ready' event. *)
Lemma ready_state c pubsub reply s :
  snd (setupRedisEvents c pubsub Ev_ready reply s)
  = mk_state (redisClient s) (pubSubClient s)
      (mk_connection_state true None (reconnectAttempts (connectionState s))
         (lastReconnectTime (connectionState s)) (subscriptions (connectionState s)))
      (global s).
Proof.
  simpl. unfold bind. simpl.
  destruct (pubsub && _); [|done].
  by destruct (resubscribeTochannels_state c reply
                 (mk_state (redisClient s) (pubSubClient s)
                    (mk_connection_state true None
                       (reconnectAttempts (connectionState s))
                       (lastReconnectTime (connectionState s))
                       (subscriptions (connectionState s)))
                    (global s))) as [-> _].
Qed.

Lemma resubscribe_loop_app pre post reply c :
  resubscribe_loop (pre ++ post)%list reply c
  = match resubscribe_loop pre reply c with
    | (Normal _, c') => resubscribe_loop post reply c'
    | (Throw e, c') => (Throw e, c')
    end.
Proof.
  revert c. induction pre as [|text pre IH]; intros c; [done|].
  simpl. destruct (resubscribe_one text reply c) as [[[]|e] c']; [apply IH | done].
Qed.

(** A 'ready' event of the pub/sub client when the registry holds one
    entry. *)
Lemma ready_single_entry c1 channel name s1 :
  subscriptions (connectionState s1) = [subscription_text channel name] →
  fst (setupRedisEvents c1 true Ev_ready (fun _ => Normal tt) s1)
  = Normal (if includes "*"%char channel
            then snd (pSubscribe channel (L_resub_pattern name) (Normal tt) c1)
            else snd (subscribe channel (L_resub_channel name) (Normal tt) c1)).
Proof.
  intros Hs. simpl. unfold bind. simpl. rewrite Hs. simpl.
  unfold resubscribeTochannels. simpl.
  rewrite resubscribe_one_text. by destruct (includes "*"%char channel).
Qed.

Lemma disconnectRedis_registry r1 r2 s :
  subscriptions (connectionState (snd (disconnectRedis r1 r2 s))) = []
  ∨ subscriptions (connectionState (snd (disconnectRedis r1 r2 s)))
    = subscriptions (connectionState s).
Proof.
  unfold disconnectRedis, try_catch, bind, on_pubSubClient, on_redisClient, not_open.
  destruct (pubSubClient s) as [c|] eqn:Hc; simpl;
    [destruct (isOpen c) eqn:Ho; simpl; rewrite ?Hc; simpl;
     [destruct r1 as [[]|e1]; simpl|]|];
    try (destruct (redisClient s) as [c'|] eqn:Hc'; simpl;
         [destruct (isOpen c') eqn:Ho'; simpl; rewrite ?Hc'; simpl;
          [destruct r2 as [[]|e2]; simpl|]|]);
    auto.
Qed.

Lemma publishToChannel_registry channel message reply s :
  connectionState (snd (publishToChannel channel message reply s)) = connectionState s.
Proof.
  unfold publishToChannel, try_catch, bind, on_redisClient, not_open.
  destruct (redisClient s) as [c|] eqn:Hc; simpl; [|done].
  destruct (isOpen c); simpl; [|done].
  destruct (messageString message) as [payload|e]; simpl; [|done]. rewrite ?Hc.
  by destruct reply as [[]|e].
Qed.

(** What one exported call does to the registry: nothing, or it empties it,
    or it adds one text written by [JSON.stringify]. *)
Lemma api_registry a s :
  subscriptions (connectionState (snd (api a s))) = subscriptions (connectionState s)
  ∨ subscriptions (connectionState (snd (api a s))) = []
  ∨ ∃ channel callback,
      subscriptions (connectionState (snd (api a s)))
      = set_add (subscription_text channel callback) (subscriptions (connectionState s)).
Proof.
  destruct a as [r1 r2|r1 r2|channel callback now reply|pattern callback now reply
                 |channel message reply]; simpl.
  - destruct (not_open (redisClient s)) eqn:Hopen.
    + rewrite connectRedis_not_open by done. by left.
    + unfold not_open in Hopen. destruct (redisClient s) as [c|] eqn:Hc; [|done].
      apply negb_false_iff in Hopen. rewrite (connectRedis_open _ _ s c) by done. by left.
  - destruct (disconnectRedis_registry r1 r2 s) as [H|H]; auto.
  - destruct (not_open (pubSubClient s)) eqn:Hopen.
    + rewrite subscribeTochannel_not_open by done. by left.
    + unfold not_open in Hopen. destruct (pubSubClient s) as [c|] eqn:Hc; [|done].
      apply negb_false_iff in Hopen.
      rewrite (subscribeTochannel_open _ _ _ _ _ c) by done. simpl. eauto.
  - destruct (not_open (pubSubClient s)) eqn:Hopen.
    + rewrite subscribeTopattern_not_open by done. by left.
    + unfold not_open in Hopen. destruct (pubSubClient s) as [c|] eqn:Hc; [|done].
      apply negb_false_iff in Hopen.
      rewrite (subscribeTopattern_open _ _ _ _ _ c) by done. simpl. eauto.
  - left. by rewrite publishToChannel_registry.
Qed.

End LifecycleFacts.

Module BrokerLifecycle.
Import JS NodeRedis Redis Lifecycle RedisFacts LifecycleFacts.

(** X1: used through its exports alone, the module never gets a connection.
    After any sequence of calls of [connectRedis], [disconnectRedis],
    [subscribeTochannel], [subscribeTopattern] and [publishToChannel] on the
    freshly loaded module, however the client calls are answered: there is
    no pub/sub client, the main client is absent or a client that was never
    opened, the registry is empty, [getRedisHealth] reports [unhealthy],
    every subscribe and publish throws its not-connected error, and
    [connectRedis] throws the TypeError of [setupRedisEvents.coonect()]. *)
Theorem exports_never_connect calls main_ready pubsub_ready :
  let s := api_run calls loaded in
  pubSubClient s = None
  ∧ (redisClient s = None ∨ redisClient s = Some (createRedisClient false))
  ∧ subscriptions (connectionState s) = []
  ∧ status (getRedisHealth main_ready pubsub_ready s) = "unhealthy"
  ∧ (∀ channel callback now reply,
       fst (subscribeTochannel channel callback now reply s)
       = Throw (Error "Redis PubSub client not connected")
       ∧ fst (subscribeTopattern channel callback now reply s)
         = Throw (Error "Redis PubSub client not connected"))
  ∧ (∀ channel message reply,
       fst (publishToChannel channel message reply s)
       = Throw (Error "Redis client not connected"))
  ∧ (∀ reply_main reply_pubsub,
       fst (connectRedis reply_main reply_pubsub s)
       = Throw (TypeError "setupRedisEvents.coonect is not a function")).
Proof.
  cbv zeta.
  assert (H : pubSubClient (api_run calls loaded) = None
    ∧ (redisClient (api_run calls loaded) = None
       ∨ redisClient (api_run calls loaded) = Some (createRedisClient false))
    ∧ subscriptions (connectionState (api_run calls loaded)) = []
    ∧ isConnected (connectionState (api_run calls loaded)) = false).
  { assert (H0 : pubSubClient loaded = None
      ∧ (redisClient loaded = None ∨ redisClient loaded = Some (createRedisClient false))
      ∧ subscriptions (connectionState loaded) = []
      ∧ isConnected (connectionState loaded) = false) by (simpl; auto).
    revert H0. generalize loaded as s.
    induction calls as [|a calls IH]; intros s H0; [exact H0|].
    simpl. apply IH. destruct H0 as (Hp & Hm & Hs & Hi).
    by apply never_connected_step. }
  destruct H as (Hp & Hm & Hs & Hi).
  assert (Hpo : not_open (pubSubClient (api_run calls loaded)) = true) by (by rewrite Hp).
  assert (Hmo : not_open (redisClient (api_run calls loaded)) = true)
    by (by destruct Hm as [->| ->]).
  split; [done|]. split; [done|]. split; [done|]. split.
  { unfold getRedisHealth. simpl. by rewrite Hi. }
  split; [|split].
  - intros. by rewrite subscribeTochannel_not_open, subscribeTopattern_not_open.
  - intros. by rewrite publishToChannel_not_open.
  - intros. by rewrite connectRedis_not_open.
Qed.

(** X2: [connectRedis] makes no [connect()] call and opens nothing.  Its
    result does not depend on how the two [connect()] calls would be
    answered; it leaves the main client as open or closed as it was, and the
    pub/sub client, [isConnected] and the registry as they were.  When the
    main client is absent or closed it throws the TypeError, records it as
    [lastError] and leaves a fresh, closed main client; when the main client
    is open it returns that client and changes nothing. *)
Theorem connectRedis_cannot_connect reply_main reply_pubsub reply_main' reply_pubsub' s :
  connectRedis reply_main reply_pubsub s = connectRedis reply_main' reply_pubsub' s
  ∧ not_open (redisClient (snd (connectRedis reply_main reply_pubsub s)))
    = not_open (redisClient s)
  ∧ pubSubClient (snd (connectRedis reply_main reply_pubsub s)) = pubSubClient s
  ∧ isConnected (connectionState (snd (connectRedis reply_main reply_pubsub s)))
    = isConnected (connectionState s)
  ∧ subscriptions (connectionState (snd (connectRedis reply_main reply_pubsub s)))
    = subscriptions (connectionState s)
  ∧ (not_open (redisClient s) = true →
     fst (connectRedis reply_main reply_pubsub s)
     = Throw (TypeError "setupRedisEvents.coonect is not a function")
     ∧ lastError (connectionState (snd (connectRedis reply_main reply_pubsub s)))
       = Some (TypeError "setupRedisEvents.coonect is not a function")
     ∧ redisClient (snd (connectRedis reply_main reply_pubsub s))
       = Some (createRedisClient false))
  ∧ (∀ c, redisClient s = Some c → isOpen c = true →
     connectRedis reply_main reply_pubsub s = (Normal c, s)).
Proof.
  destruct (not_open (redisClient s)) eqn:Hopen.
  - rewrite !connectRedis_not_open by done. simpl.
    repeat split; try done.
    intros c Hc Ho. unfold not_open in Hopen. by rewrite Hc, Ho in Hopen.
  - unfold not_open in Hopen. destruct (redisClient s) as [c|] eqn:Hc; [|done].
    apply negb_false_iff in Hopen.
    rewrite !(connectRedis_open _ _ s c) by done. simpl. rewrite Hc. simpl.
    rewrite Hopen. repeat split; try done.
    intros c' [= <-] _. done.
Qed.

(** X3: when every [quit()] it makes resolves, [disconnectRedis] returns
    normally, empties the registry, sets [isConnected] to false and forgets
    each client that was open (a client that was absent or closed stays as
    it was); the callbacks that [subscribeTochannel] put on [global] stay
    there; afterwards every subscribe and publish throws its not-connected
    error and changes nothing. *)
Theorem disconnect_clears_registry_keeps_global reply_pubsub reply_main s :
  not_open (pubSubClient s) = true ∨ reply_pubsub = Normal tt →
  not_open (redisClient s) = true ∨ reply_main = Normal tt →
  fst (disconnectRedis reply_pubsub reply_main s) = Normal tt
  ∧ subscriptions (connectionState (snd (disconnectRedis reply_pubsub reply_main s))) = []
  ∧ isConnected (connectionState (snd (disconnectRedis reply_pubsub reply_main s))) = false
  ∧ pubSubClient (snd (disconnectRedis reply_pubsub reply_main s))
    = (if not_open (pubSubClient s) then pubSubClient s else None)
  ∧ redisClient (snd (disconnectRedis reply_pubsub reply_main s))
    = (if not_open (redisClient s) then redisClient s else None)
  ∧ global (snd (disconnectRedis reply_pubsub reply_main s)) = global s
  ∧ (∀ channel callback now reply,
       subscribeTochannel channel callback now reply
         (snd (disconnectRedis reply_pubsub reply_main s))
       = (Throw (Error "Redis PubSub client not connected"),
          snd (disconnectRedis reply_pubsub reply_main s)))
  ∧ (∀ channel message reply,
       publishToChannel channel message reply
         (snd (disconnectRedis reply_pubsub reply_main s))
       = (Throw (Error "Redis client not connected"),
          snd (disconnectRedis reply_pubsub reply_main s))).
Proof.
  intros H1 H2. rewrite disconnectRedis_succeeds by done. simpl.
  repeat split.
  - intros. apply subscribeTochannel_not_open. simpl.
    by destruct (not_open (pubSubClient s)) eqn:E.
  - intros. apply publishToChannel_not_open. simpl.
    by destruct (not_open (redisClient s)) eqn:E.
Qed.

(** Both clients open, both [quit()] calls resolve. *)
Lemma disconnect_clears_witness :
  (not_open (pubSubClient both_open) = true ∨ Normal tt = Normal tt)
  ∧ (not_open (redisClient both_open) = true ∨ Normal tt = Normal tt)
  ∧ fst (disconnectRedis (Normal tt) (Normal tt) both_open) = Normal tt
  ∧ subscriptions (connectionState (snd (disconnectRedis (Normal tt) (Normal tt) both_open)))
    = []
  ∧ pubSubClient (snd (disconnectRedis (Normal tt) (Normal tt) both_open)) = None
  ∧ redisClient (snd (disconnectRedis (Normal tt) (Normal tt) both_open)) = None
  ∧ global (snd (disconnectRedis (Normal tt) (Normal tt) both_open)) = global both_open.
Proof.
  assert (H1 : not_open (pubSubClient both_open) = true ∨ Normal tt = Normal tt)
    by (right; reflexivity).
  assert (H2 : not_open (redisClient both_open) = true ∨ Normal tt = Normal tt)
    by (right; reflexivity).
  split; [exact H1|]. split; [exact H2|].
  destruct (disconnect_clears_registry_keeps_global (Normal tt) (Normal tt) both_open H1 H2)
    as (R1 & R2 & _ & R4 & R5 & R6 & _).
  split; [exact R1|]. split; [exact R2|]. split; [exact R4|]. split; [exact R5 | exact R6].
Defined.

(** X4: a [quit()] that rejects ends [disconnectRedis] where it stands, and
    the error is rethrown.  If the pub/sub client's [quit()] rejects, the
    module still holds that client, now closed (the client closes itself
    before it sends the command); the main client, [isConnected] and the
    registry are as before, and a later [subscribeTochannel] throws its
    not-connected error.  If the main client's [quit()] rejects, the pub/sub
    client has been forgotten if it was open, the module still holds the
    main client, now closed, and [isConnected] and the registry are as
    before: the registry is not cleared. *)
Theorem disconnect_failure_stops_there e s :
  (∀ c reply_main,
     pubSubClient s = Some c → isOpen c = true →
     disconnectRedis (Throw e) reply_main s
     = (Throw e,
        mk_state (redisClient s) (Some (set_isOpen false c))
          (connectionState s) (global s))
     ∧ ∀ channel callback now reply,
         fst (subscribeTochannel channel callback now reply
                (snd (disconnectRedis (Throw e) reply_main s)))
         = Throw (Error "Redis PubSub client not connected"))
  ∧ (∀ c reply_pubsub,
     redisClient s = Some c → isOpen c = true →
     not_open (pubSubClient s) = true ∨ reply_pubsub = Normal tt →
     disconnectRedis reply_pubsub (Throw e) s
     = (Throw e,
        mk_state (Some (set_isOpen false c))
          (if not_open (pubSubClient s) then pubSubClient s else None)
          (connectionState s) (global s))
     ∧ ∀ channel message reply,
         fst (publishToChannel channel message reply
                (snd (disconnectRedis reply_pubsub (Throw e) s)))
         = Throw (Error "Redis client not connected")).
Proof.
  split.
  - intros c r Hc Ho. rewrite (disconnectRedis_pubsub_fails e r s c) by done.
    split; [done|]. intros. by rewrite subscribeTochannel_not_open.
  - intros c r Hc Ho Hp.
    assert (Hm : not_open (redisClient s) = false) by (unfold not_open; by rewrite Hc, Ho).
    assert (Hd : disconnectRedis r (Throw e) s
                 = (Throw e,
                    mk_state (Some (set_isOpen false c))
                      (if not_open (pubSubClient s) then pubSubClient s else None)
                      (connectionState s) (global s))).
    { unfold disconnectRedis, try_catch, bind.
      destruct (not_open (pubSubClient s)) eqn:Hpo; simpl.
      - rewrite Hm. simpl. unfold on_redisClient. by rewrite Hc.
      - destruct Hp as [?| ->]; [done|].
        unfold not_open in Hpo. destruct (pubSubClient s) as [c'|] eqn:Hc'; [|done].
        unfold on_pubSubClient. simpl. rewrite Hc'. simpl. rewrite Hm. simpl.
        unfold on_redisClient. simpl. by rewrite Hc. }
    rewrite Hd. split; [done|]. intros. by rewrite publishToChannel_not_open.
Qed.

(** X5: after a [disconnectRedis] that succeeded, a further
    [disconnectRedis] makes no [quit()] call (however such a call would be
    answered), returns normally and leaves the state as it is. *)
Theorem disconnect_twice reply_pubsub reply_main reply_pubsub' reply_main' s :
  not_open (pubSubClient s) = true ∨ reply_pubsub = Normal tt →
  not_open (redisClient s) = true ∨ reply_main = Normal tt →
  disconnectRedis reply_pubsub' reply_main'
    (snd (disconnectRedis reply_pubsub reply_main s))
  = (Normal tt, snd (disconnectRedis reply_pubsub reply_main s)).
Proof.
  intros H1 H2. rewrite (disconnectRedis_succeeds reply_pubsub reply_main s) by done.
  simpl. rewrite disconnectRedis_none_open; simpl.
  - reflexivity.
  - by destruct (not_open (pubSubClient s)) eqn:E.
  - by destruct (not_open (redisClient s)) eqn:E.
Qed.

(** Both clients open; the second call is given replies that reject. *)
Lemma disconnect_twice_witness :
  (not_open (pubSubClient both_open) = true ∨ Normal tt = Normal tt)
  ∧ (not_open (redisClient both_open) = true ∨ Normal tt = Normal tt)
  ∧ disconnectRedis (Throw (Error "closed")) (Throw (Error "closed"))
      (snd (disconnectRedis (Normal tt) (Normal tt) both_open))
    = (Normal tt, snd (disconnectRedis (Normal tt) (Normal tt) both_open)).
Proof.
  assert (H1 : not_open (pubSubClient both_open) = true ∨ Normal tt = Normal tt)
    by (right; reflexivity).
  assert (H2 : not_open (redisClient both_open) = true ∨ Normal tt = Normal tt)
    by (right; reflexivity).
  split; [exact H1|]. split; [exact H2|].
  exact (disconnect_twice (Normal tt) (Normal tt) (Throw (Error "closed"))
           (Throw (Error "closed")) both_open H1 H2).
Defined.

(** X6: what [getRedisHealth] reports of [connectionState] follows the
    events of the clients.  After 'ready' the status is [healthy],
    [isConnected] is true and [lastError] is null; after 'end' the status is
    [unhealthy] and [lastError] is as before; an 'error' event records its
    error as [lastError] and leaves the status as it was; 'connect' (whose
    handler throws at [clinetType]) and 'reconnecting' leave status,
    [isConnected] and [lastError] as they were; no event changes
    [subscriptionCount], [lastReconnectTime] or [reconnectAttempts].  The
    two readiness fields are read from the clients when the report is made
    (they may differ before and after an event) and nothing is said of
    them. *)
Theorem health_follows_events c pubsub reply
    main_ready pubsub_ready main_ready' pubsub_ready' s :
  let before := getRedisHealth main_ready pubsub_ready s in
  let after ev :=
    getRedisHealth main_ready' pubsub_ready' (snd (setupRedisEvents c pubsub ev reply s)) in
  status (after Ev_ready) = "healthy"
  ∧ health_isConnected (after Ev_ready) = true
  ∧ health_lastError (after Ev_ready) = None
  ∧ status (after Ev_end) = "unhealthy"
  ∧ health_lastError (after Ev_end) = health_lastError before
  ∧ (∀ e, status (after (Ev_error e)) = status before
          ∧ health_lastError (after (Ev_error e)) = Some e)
  ∧ (∀ ev, ev = Ev_connect ∨ ev = Ev_reconnecting →
       status (after ev) = status before
       ∧ health_isConnected (after ev) = health_isConnected before
       ∧ health_lastError (after ev) = health_lastError before)
  ∧ (∀ ev, subscriptionCount (after ev) = subscriptionCount before
           ∧ health_lastReconnectTime (after ev) = health_lastReconnectTime before
           ∧ health_reconnectAttempts (after ev) = health_reconnectAttempts before).
Proof.
  cbv beta zeta. rewrite ready_state.
  split; [done|]. split; [done|]. split; [done|]. split; [done|].
  split; [done|]. split; [done|]. split.
  - by intros ev [-> | ->].
  - intros ev. destruct ev; try done. by rewrite ready_state.
Qed.

(** X7: the health status speaks for one flag that both clients write.  With
    the main client absent or closed, a 'ready' event of the pub/sub client
    makes [getRedisHealth] report [healthy] while [publishToChannel] still
    throws 'Redis client not connected'. *)
Theorem healthy_without_publisher c reply main_ready pubsub_ready channel message reply' s :
  not_open (redisClient s) = true →
  status (getRedisHealth main_ready pubsub_ready
            (snd (setupRedisEvents c true Ev_ready reply s))) = "healthy"
  ∧ fst (publishToChannel channel message reply'
           (snd (setupRedisEvents c true Ev_ready reply s)))
    = Throw (Error "Redis client not connected").
Proof.
  intros H. rewrite ready_state. split; [done|].
  by rewrite publishToChannel_not_open.
Qed.

(** No main client, an open pub/sub client that becomes ready. *)
Lemma healthy_without_publisher_witness :
  let s := mk_state None (Some (set_isOpen true (createClient true)))
             initial_connectionState ∅ in
  let c := set_isOpen true (createClient true) in
  not_open (redisClient s) = true
  ∧ status (getRedisHealth false true
              (snd (setupRedisEvents c true Ev_ready (fun _ => Normal tt) s))) = "healthy"
  ∧ fst (publishToChannel (JStr "lobby") (JStr "hi") (Normal tt)
           (snd (setupRedisEvents c true Ev_ready (fun _ => Normal tt) s)))
    = Throw (Error "Redis client not connected").
Proof.
  assert (H : not_open (redisClient
                (mk_state None (Some (set_isOpen true (createClient true)))
                   initial_connectionState ∅)) = true) by reflexivity.
  split; [exact H|].
  exact (healthy_without_publisher (set_isOpen true (createClient true))
           (fun _ => Normal tt) false true (JStr "lobby") (JStr "hi") (Normal tt) _ H).
Defined.

(** X8: resubscription stops at the first subscription the client rejects.
    If the call for one registry entry rejects, [resubscribeTochannels]
    still returns normally (the error is caught and logged), the client
    holds the resubscriptions of the entries before that one only, and the
    entries after it are not attempted; the registry is unchanged. *)
Theorem resubscription_stops_at_first_failure pre post channel callback e reply c s :
  subscriptions (connectionState s)
  = (pre ++ subscription_text channel callback :: post)%list →
  reply channel = Throw e →
  resubscribeTochannels c reply s = (Normal (snd (resubscribe_loop pre reply c)), s).
Proof.
  intros Hs Hr. unfold resubscribeTochannels. rewrite Hs, resubscribe_loop_app.
  destruct (resubscribe_loop pre reply c) as [[[]|e'] c']; [|done].
  simpl. rewrite resubscribe_one_text.
  destruct (includes "*"%char channel); simpl; by rewrite Hr.
Qed.

(** Three recorded channels; the client rejects the second. *)
Lemma resubscription_stops_witness :
  let closed := mk_error "Error" "The client is closed" in
  let reply := fun channel : string =>
    if decide (channel = "b") then Throw closed else Normal tt in
  let c := set_isOpen true (createClient true) in
  let s := mk_state None (Some c)
             (mk_connection_state true None 0 None
                [subscription_text "a" "f"; subscription_text "b" "f";
                 subscription_text "c" "f"]) ∅ in
  subscriptions (connectionState s)
  = ([subscription_text "a" "f"] ++ subscription_text "b" "f" :: [subscription_text "c" "f"])%list
  ∧ reply "b" = Throw closed
  ∧ resubscribeTochannels c reply s
    = (Normal (snd (resubscribe_loop [subscription_text "a" "f"] reply c)), s).
Proof.
  split; [reflexivity|]. split; [reflexivity|].
  apply (resubscription_stops_at_first_failure [subscription_text "a" "f"]
           [subscription_text "c" "f"] "b" "f" (mk_error "Error" "The client is closed"));
    reflexivity.
Defined.

(** X9: a registry entry identifies its subscription.  The text
    [JSON.stringify({channel, callback})] that the subscribe functions
    store reads back, by the [JSON.parse] of [resubscribeTochannels], as the
    same channel and callback name, whatever characters the two contain; two
    entries are the same text exactly when channel and callback name are the
    same. *)
Theorem registry_entry_identifies channel callback channel' callback' :
  parse_subscription (subscription_text channel callback) = Some (channel, callback)
  ∧ (subscription_text channel callback = subscription_text channel' callback'
     ↔ channel = channel' ∧ callback = callback').
Proof.
  split; [apply JSONFacts.parse_subscription_text|]. split.
  - apply JSONFacts.subscription_text_inj.
  - by intros [-> ->].
Qed.

(** X10: the registry does not record whether an entry was a channel or a
    pattern subscription; on 'ready' the kind is decided by whether the name
    contains a star.  For a named callback subscribed on an empty registry,
    by [subscribeTopattern] or by [subscribeTochannel]: the resubscription is
    a pattern subscription if the name contains a star and a channel
    subscription otherwise, whichever function made the subscription. *)
Theorem resubscription_kind_follows_the_star name callback now s c :
  pubSubClient s = Some c → isOpen c = true →
  subscriptions (connectionState s) = [] →
  fn_name callback ≠ EmptyString →
  let resubscribed c1 :=
    if includes "*"%char name
    then mk_client (isPubSub c1) (isOpen c1) (channels c1)
           (<[name := (default [] (patterns c1 !! name)
                       ++ [L_resub_pattern (fn_name callback)])%list]> (patterns c1))
           (publish_calls c1) (dispatching c1)
    else mk_client (isPubSub c1) (isOpen c1)
           (<[name := (default [] (channels c1 !! name)
                       ++ [L_resub_channel (fn_name callback)])%list]> (channels c1))
           (patterns c1) (publish_calls c1) (dispatching c1) in
  (let s1 := snd (subscribeTopattern name callback now (Normal tt) s) in
   let c1 := snd (pSubscribe name (L_fn callback) (Normal tt) c) in
   pubSubClient s1 = Some c1
   ∧ channels c1 = channels c
   ∧ fst (setupRedisEvents c1 true Ev_ready (fun _ => Normal tt) s1)
     = Normal (resubscribed c1))
  ∧ (let s1 := snd (subscribeTochannel name callback now (Normal tt) s) in
     let c1 := snd (subscribe name (L_fn callback) (Normal tt) c) in
     pubSubClient s1 = Some c1
     ∧ patterns c1 = patterns c
     ∧ fst (setupRedisEvents c1 true Ev_ready (fun _ => Normal tt) s1)
       = Normal (resubscribed c1)).
Proof.
  intros Hc Ho Hs Hn. cbv zeta.
  rewrite (subscribeTopattern_open _ _ _ _ _ c), (subscribeTochannel_open _ _ _ _ _ c)
    by done.
  assert (Hname : ∀ fallback, name_or callback fallback = fn_name callback).
  { intros fb. unfold name_or. by rewrite decide_False. }
  split.
  - split; [done|]. split; [done|].
    rewrite (ready_single_entry _ name (fn_name callback)).
    + by destruct (includes "*"%char name).
    + simpl. by rewrite Hs, Hname.
  - split; [done|]. split; [done|].
    rewrite (ready_single_entry _ name (fn_name callback)).
    + by destruct (includes "*"%char name).
    + simpl. by rewrite Hs, Hname.
Qed.

(** The pattern [room?], which contains no star, subscribed by
    [subscribeTopattern]: after 'ready' the client also holds a channel
    subscription named [room?]. *)
Lemma resubscription_kind_witness :
  let c := set_isOpen true (createClient true) in
  let s := mk_state None (Some c) initial_connectionState ∅ in
  let s1 := snd (subscribeTopattern "room?" (mk_fn "onRoom" 0) 0 (Normal tt) s) in
  let c1 := snd (pSubscribe "room?" (L_fn (mk_fn "onRoom" 0)) (Normal tt) c) in
  pubSubClient s = Some c ∧ isOpen c = true
  ∧ subscriptions (connectionState s) = []
  ∧ fn_name (mk_fn "onRoom" 0) ≠ EmptyString
  ∧ pubSubClient s1 = Some c1
  ∧ fst (setupRedisEvents c1 true Ev_ready (fun _ => Normal tt) s1)
    = Normal (mk_client true true
                (<["room?" := [L_resub_channel "onRoom"]]> ∅)
                (<["room?" := [L_fn (mk_fn "onRoom" 0)]]> ∅) [] true).
Proof.
  assert (Hn : fn_name (mk_fn "onRoom" 0) ≠ EmptyString) by discriminate.
  split; [reflexivity|]. split; [reflexivity|]. split; [reflexivity|].
  split; [exact Hn|].
  destruct (resubscription_kind_follows_the_star "room?" (mk_fn "onRoom" 0) 0
              (mk_state None (Some (set_isOpen true (createClient true)))
                 initial_connectionState ∅)
              (set_isOpen true (createClient true)) eq_refl eq_refl eq_refl Hn)
    as [(H1 & _ & H2) _].
  split; [exact H1|]. rewrite H2. reflexivity.
Defined.

(** X11: a subscription the client rejects is recorded all the same.  With
    the pub/sub client open, when the client's subscribe call rejects,
    [subscribeTochannel] and [subscribeTopattern] rethrow the error and the
    client holds no new listener, but the registry entry (and, for an
    anonymous callback, its binding on [global]) was written before the call
    and is not taken back. *)
Theorem rejected_subscribe_is_still_recorded channel callback now e s c :
  pubSubClient s = Some c → isOpen c = true →
  fst (subscribeTochannel channel callback now (Throw e) s) = Throw e
  ∧ pubSubClient (snd (subscribeTochannel channel callback now (Throw e) s)) = Some c
  ∧ subscription_text channel (name_or callback ("callback_" +:+ pretty now))
    ∈ subscriptions (connectionState (snd (subscribeTochannel channel callback now (Throw e) s)))
  ∧ (fn_name callback = EmptyString →
     global (snd (subscribeTochannel channel callback now (Throw e) s))
       !! ("callback_" +:+ pretty now) = Some callback)
  ∧ fst (subscribeTopattern channel callback now (Throw e) s) = Throw e
  ∧ pubSubClient (snd (subscribeTopattern channel callback now (Throw e) s)) = Some c
  ∧ subscription_text channel (name_or callback ("pattern_callback_" +:+ pretty now))
    ∈ subscriptions (connectionState (snd (subscribeTopattern channel callback now (Throw e) s))).
Proof.
  intros Hc Ho.
  rewrite (subscribeTochannel_open _ _ _ _ _ c), (subscribeTopattern_open _ _ _ _ _ c) by done.
  simpl. repeat split.
  - apply elem_of_set_add. by left.
  - intros Hn. unfold name_or. rewrite !decide_True by done. apply lookup_insert_eq.
  - apply elem_of_set_add. by left.
Qed.

(** An open pub/sub client that rejects the subscription of an anonymous
    callback to [lobby]. *)
Lemma rejected_subscribe_witness :
  let c := set_isOpen true (createClient true) in
  let s := mk_state None (Some c) initial_connectionState ∅ in
  let e := mk_error "Error" "The client is closed" in
  let f := mk_fn EmptyString 3 in
  pubSubClient s = Some c ∧ isOpen c = true
  ∧ fst (subscribeTochannel "lobby" f 5 (Throw e) s) = Throw e
  ∧ pubSubClient (snd (subscribeTochannel "lobby" f 5 (Throw e) s)) = Some c
  ∧ subscription_text "lobby" (name_or f ("callback_" +:+ pretty 5))
    ∈ subscriptions (connectionState (snd (subscribeTochannel "lobby" f 5 (Throw e) s)))
  ∧ (fn_name f = EmptyString →
     global (snd (subscribeTochannel "lobby" f 5 (Throw e) s))
       !! ("callback_" +:+ pretty 5) = Some f)
  ∧ fst (subscribeTopattern "lobby" f 5 (Throw e) s) = Throw e
  ∧ pubSubClient (snd (subscribeTopattern "lobby" f 5 (Throw e) s)) = Some c
  ∧ subscription_text "lobby" (name_or f ("pattern_callback_" +:+ pretty 5))
    ∈ subscriptions (connectionState (snd (subscribeTopattern "lobby" f 5 (Throw e) s))).
Proof.
  split; [reflexivity|]. split; [reflexivity|].
  apply (rejected_subscribe_is_still_recorded "lobby" (mk_fn EmptyString 3) 5
           (mk_error "Error" "The client is closed")); reflexivity.
Defined.

(** X12: the registry stays a set of texts that [resubscribeTochannels] can
    read.  If every entry was written by a subscribe function and no text
    occurs twice, the same holds after any exported call, however the client
    answers; so [JSON.parse] succeeds on every entry and the loop of
    [resubscribeTochannels] never stops on a text it cannot read. *)
Theorem registry_stays_readable a s :
  registry_written s → NoDup (subscriptions (connectionState s)) →
  registry_written (snd (api a s))
  ∧ NoDup (subscriptions (connectionState (snd (api a s))))
  ∧ (∀ text, text ∈ subscriptions (connectionState (snd (api a s))) →
       is_Some (parse_subscription text)).
Proof.
  intros Hw Hd.
  assert (H : registry_written (snd (api a s))
              ∧ NoDup (subscriptions (connectionState (snd (api a s))))).
  { unfold registry_written.
    destruct (api_registry a s) as [->|[->|(channel & callback & ->)]].
    - done.
    - split; [by intros text Hin%elem_of_nil | apply NoDup_nil_2].
    - split; [|by apply set_add_NoDup].
      intros text [->|Hin]%elem_of_set_add; [eauto | by apply Hw]. }
  destruct H as [Hw' Hd']. split; [done|]. split; [done|].
  intros text Hin. destruct (Hw' text Hin) as (channel & callback & ->).
  rewrite JSONFacts.parse_subscription_text. eauto.
Qed.

(** One recorded subscription, then a pattern subscription of an anonymous
    callback. *)
Lemma registry_stays_readable_witness :
  let s := mk_state None (Some (set_isOpen true (createClient true)))
             (mk_connection_state true None 0 None [subscription_text "lobby" "f"]) ∅ in
  let a := Call_subscribeTopattern "chat:*" (mk_fn EmptyString 0) 17 (Normal tt) in
  registry_written s ∧ NoDup (subscriptions (connectionState s))
  ∧ registry_written (snd (api a s))
  ∧ NoDup (subscriptions (connectionState (snd (api a s))))
  ∧ (∀ text, text ∈ subscriptions (connectionState (snd (api a s))) →
       is_Some (parse_subscription text)).
Proof.
  assert (Hw : registry_written
                 (mk_state None (Some (set_isOpen true (createClient true)))
                    (mk_connection_state true None 0 None
                       [subscription_text "lobby" "f"]) ∅)).
  { intros text Hin. simpl in Hin. apply list_elem_of_singleton in Hin. eauto. }
  assert (Hd : NoDup [subscription_text "lobby" "f"]) by apply NoDup_singleton.
  split; [exact Hw|]. split; [exact Hd|].
  exact (registry_stays_readable
           (Call_subscribeTopattern "chat:*" (mk_fn EmptyString 0) 17 (Normal tt)) _ Hw Hd).
Defined.

End BrokerLifecycle.

(** ** The relay: room frames, listeners and broker frames *)

Module ListenerFacts.
Import JS NodeRedis SocketIO SocketService RelayModel SocketIOFacts RedisFacts RelayFacts.
Local Open Scope list_scope.

(** Resubscribing a registry that holds the relay's entry only: the client
    gets pattern listeners written by [resubscribeTochannels] and nothing
    else changes. *)
Lemma resubscribe_chat_tables entries reply c :
  (∀ text, text ∈ entries → text = chat_subscription) →
  channels (snd (Redis.resubscribe_loop entries reply c)) = channels c
  ∧ publish_calls (snd (Redis.resubscribe_loop entries reply c)) = publish_calls c
  ∧ dispatching (snd (Redis.resubscribe_loop entries reply c)) = dispatching c
  ∧ ∀ key l,
      l ∈ default [] (patterns (snd (Redis.resubscribe_loop entries reply c)) !! key) →
      l ∈ default [] (patterns c !! key) ∨ ∃ name, l = L_resub_pattern name.
Proof.
  revert c. induction entries as [|text entries IH]; intros c Hall; [by auto|].
  simpl. assert (text = chat_subscription) as -> by (apply Hall; left).
  unfold Redis.resubscribe_one. rewrite parse_chat_subscription.
  change (includes "*"%char "chat:*") with true. cbv iota.
  unfold pSubscribe. destruct (reply "chat:*") as [[]|err]; simpl; [|by auto].
  destruct (IH (mk_client (isPubSub c) (isOpen c) (channels c)
                  (<["chat:*" := default [] (patterns c !! "chat:*")
                                 ++ [L_resub_pattern "handleMesage"]]> (patterns c))
                  (publish_calls c) (dispatching c))) as (H1 & H2 & H3 & H4).
  { intros t Ht. apply Hall. by right. }
  simpl in *. split; [done|]. split; [done|]. split; [done|].
  intros key l Hl. destruct (H4 key l Hl) as [Hin|?]; [|by right].
  destruct (decide (key = "chat:*")) as [->|Hn].
  - rewrite lookup_insert_eq in Hin. simpl in Hin.
    apply elem_of_app in Hin as [?|Heq%list_elem_of_singleton]; [by left | right; eauto].
  - rewrite lookup_insert_ne in Hin by done. by left.
Qed.


Lemma listeners_init main pubsub : listeners_invariant (init main pubsub).
Proof.
  split.
  - intros key l. unfold channel_listeners. simpl.
    destruct pubsub; simpl; rewrite ?lookup_empty; by intros ?%elem_of_nil.
  - intros key l. unfold pattern_listeners. simpl.
    destruct pubsub; simpl; rewrite ?lookup_empty; by intros ?%elem_of_nil.
  - intros which c. destruct which; simpl.
    + destruct main; simpl; by intros [= <-].
    + destruct pubsub; simpl; by intros [= <-].
Qed.

Lemma listeners_same_broker st st' :
  redis st' = redis st → (closures st ≤ closures st')%nat →
  listeners_invariant st → listeners_invariant st'.
Proof.
  intros Hr Hc [H1 H2 H3]. split; rewrite Hr.
  - intros key l Hl. destruct (H1 key l Hl) as (n & -> & Hn). exists n. split; [done|lia].
  - done.
  - done.
Qed.

Lemma listeners_threw st st' :
  redis st' = listener_threw (redis st) → (closures st ≤ closures st')%nat →
  listeners_invariant st → listeners_invariant st'.
Proof.
  intros Hr Hc Hinv. unfold listener_threw in Hr.
  destruct (Redis.pubSubClient (redis st)) as [c|] eqn:Hp;
    [|by apply (listeners_same_broker st)].
  destruct Hinv as [H1 H2 H3]. unfold channel_listeners, pattern_listeners in *.
  rewrite Hp in H1, H2.
  split; unfold channel_listeners, pattern_listeners; rewrite Hr; simpl.
  - intros key l Hl. destruct (H1 key l Hl) as (n & -> & Hn). exists n. split; [done|lia].
  - done.
  - intros which c'. destruct which; simpl; [apply (H3 Main)|].
    intros [= <-]. simpl. by apply (H3 PubSub).
Qed.

Lemma setupRedisEvents_shape c pubsub ev reply s :
  (∃ cs, snd (Redis.setupRedisEvents c pubsub ev reply s)
         = Redis.mk_state (Redis.redisClient s) (Redis.pubSubClient s) cs (Redis.global s))
  ∧ ((∃ e, fst (Redis.setupRedisEvents c pubsub ev reply s) = Throw e)
     ∨ fst (Redis.setupRedisEvents c pubsub ev reply s) = Normal c
     ∨ (pubsub = true
        ∧ fst (Redis.setupRedisEvents c pubsub ev reply s)
          = Normal (snd (Redis.resubscribe_loop
                           (Redis.subscriptions (Redis.connectionState s)) reply c)))).
Proof.
  destruct ev; simpl; unfold Redis.bind; simpl.
  - split; [exists (Redis.connectionState s); by destruct s | left; eauto].
  - destruct pubsub; simpl.
    + case_bool_decide; simpl.
      * unfold Redis.resubscribeTochannels. simpl.
        destruct (Redis.resubscribe_loop _ reply c) as [r c'] eqn:Hloop. simpl.
        split; [eauto|]. right. right. split; [done|]. done.
      * split; [eauto|]. right. by left.
    + split; [eauto|]. right. by left.
  - split; [eauto|]. right. by left.
  - split; [exists (Redis.connectionState s); by destruct s|]. right. by left.
  - split; [eauto|]. right. by left.
Qed.

(** Every event keeps the listeners' invariant. *)
Lemma listeners_step e st st' :
  invariant st → listeners_invariant st → step e st = Some st' →
  listeners_invariant st'.
Proof.
  intros [Hio Hbr Hls] Hinv Hstep. destruct e; simpl in Hstep.
  - (* Connection *)
    case_decide; [done|]. injection Hstep as <-.
    unfold bind, on_io, on_connection. simpl.
    destruct (Redis.not_open (Redis.pubSubClient (redis st))) eqn:Hopen.
    { rewrite subscribeTochannel_not_open by done. simpl.
      apply (listeners_same_broker st); simpl; [done | lia | done]. }
    unfold Redis.not_open in Hopen.
    destruct (Redis.pubSubClient (redis st)) as [c|] eqn:Hc; [|done].
    apply negb_false_iff in Hopen.
    rewrite (subscribeTochannel_open _ _ _ _ _ c) by done. simpl.
    destruct Hinv as [H1 H2 H3]. unfold channel_listeners, pattern_listeners in *.
    rewrite Hc in H1, H2. split; unfold channel_listeners, pattern_listeners; simpl.
    + intros key l Hl. destruct reply as [[]|err]; simpl in Hl.
      * destruct (decide (key = "chat:*")) as [->|Hn].
        -- rewrite lookup_insert_eq in Hl. simpl in Hl.
           assert (l ∈ default [] (channels c !! "chat:*")
                   ∨ l = L_fn (mk_fn "handleMesage" (closures st))) as [Hin| ->].
           { destruct (decide (L_fn (mk_fn "handleMesage" (closures st))
                               ∈ default [] (channels c !! "chat:*"))); [by left|].
             apply elem_of_app in Hl as [?|?%list_elem_of_singleton]; auto. }
           ++ destruct (H1 _ _ Hin) as (n & -> & Hn). exists n. split; [done|lia].
           ++ exists (closures st). split; [done|lia].
        -- rewrite lookup_insert_ne in Hl by done.
           destruct (H1 _ _ Hl) as (n & -> & Hn'). exists n. split; [done|lia].
      * destruct (H1 _ _ Hl) as (n & -> & Hn'). exists n. split; [done|lia].
    + intros key l Hl. destruct reply as [[]|err]; simpl in Hl; by apply (H2 key).
    + intros which c' Hget. destruct which; simpl in Hget.
      * by apply (H3 Main).
      * injection Hget as <-. destruct reply as [[]|err]; simpl; by apply (H3 PubSub).
  - case_decide; [|done]. injection Hstep as <-.
    by apply (listeners_same_broker st).
  - case_decide; [|done]. injection Hstep as <-.
    by apply (listeners_same_broker st).
  - case_decide; [|done]. injection Hstep as <-. done.
  - case_decide; [|done]. injection Hstep as <-.
    unfold bind, on_io. simpl. rewrite run_disconnect_state.
    by apply (listeners_same_broker st).
  - destruct (Redis.pubSubClient (redis st)) as [c|]; [|done].
    destruct (dispatching c && _); [|done]. injection Hstep as <-.
    destruct (deliver_state
                (default [] ((if pattern then patterns c else channels c) !! key))
                message channel st) as (_ & H2 & [Hr|Hr]).
    + apply (listeners_same_broker st); [done | lia | done].
    + apply (listeners_threw st); [done | lia | done].
  - (* ClientOpen *)
    destruct (get_client which (redis st)) as [c|] eqn:Hget; [|done].
    injection Hstep as <-. destruct Hinv as [H1 H2 H3].
    unfold channel_listeners, pattern_listeners in *.
    destruct which; simpl in *.
    + split; unfold channel_listeners, pattern_listeners; simpl; [done | done |].
      intros which c' Hc'. destruct which; simpl in Hc'.
      * injection Hc' as <-. simpl. by apply (H3 Main).
      * by apply (H3 PubSub).
    + rewrite Hget in H1, H2. split; unfold channel_listeners, pattern_listeners; simpl; [done | done |].
      intros which c' Hc'. destruct which; simpl in Hc'.
      * by apply (H3 Main).
      * injection Hc' as <-. simpl. by apply (H3 PubSub).
  - (* ClientEvent *)
    destruct (get_client which (redis st)) as [c|] eqn:Hget; [|done].
    destruct (setupRedisEvents_shape c (match which with Main => false | PubSub => true end)
                ev reply (redis st)) as [[cs Hs] Hr].
    destruct (Redis.setupRedisEvents c _ ev reply (redis st)) as [r s'] eqn:Hev.
    simpl in Hs, Hr. subst s'. destruct Hinv as [H1 H2 H3].
    unfold channel_listeners, pattern_listeners in *.
    assert (Hkeep : listeners_invariant
                      (mk_state (Redis.mk_state (Redis.redisClient (redis st))
                                   (Redis.pubSubClient (redis st)) cs
                                   (Redis.global (redis st)))
                         (io st) (closures st))).
    { split; unfold channel_listeners, pattern_listeners; simpl; [done | done |]. intros w c'. destruct w; simpl; [apply (H3 Main) | apply (H3 PubSub)]. }
    destruct r as [c'|err]; injection Hstep as <-; [|done].
    destruct Hr as [[e [=]]|[[= ->]|[Hp [= ->]]]].
    + destruct which; simpl in Hget; split; unfold channel_listeners, pattern_listeners; simpl; try done.
      * intros w c'. destruct w; simpl; [by intros [= <-]; apply (H3 Main) | apply (H3 PubSub)].
      * by rewrite Hget in H1.
      * by rewrite Hget in H2.
      * intros w c'. destruct w; simpl; [apply (H3 Main) | by intros [= <-]; apply (H3 PubSub)].
    + destruct which; [done|]. simpl in Hget.
      destruct (resubscribe_chat_tables
                  (Redis.subscriptions (Redis.connectionState (redis st))) reply c
                  (registry_chat _ Hbr)) as (Hch & Hpub & _ & Hpat).
      rewrite Hget in H1, H2. split; unfold channel_listeners, pattern_listeners; simpl.
      * intros key l. rewrite Hch. apply H1.
      * intros key l Hl. destruct (Hpat key l Hl) as [Hin|?]; [by apply (H2 key) | done].
      * intros w c'. destruct w; simpl; [apply (H3 Main)|].
        intros [= <-]. rewrite Hpub. by apply (H3 PubSub).
Qed.

Lemma reachable_listeners st : reachable st → listeners_invariant st.
Proof.
  intros (main & pubsub & evs & Hrun).
  revert Hrun. generalize (listeners_init main pubsub) (invariant_init main pubsub).
  generalize (init main pubsub) as st0.
  induction evs as [|e evs IH]; intros st0 Hl Hinv Hrun; simpl in Hrun.
  - by injection Hrun as <-.
  - destruct (step e st0) as [st1|] eqn:Hstep; [|done].
    eapply IH; [| |done].
    + by eapply listeners_step.
    + by eapply invariant_step.
Qed.

Lemma setupRedisEvents_subscriptions c pubsub ev reply s :
  Redis.subscriptions (Redis.connectionState (snd (Redis.setupRedisEvents c pubsub ev reply s)))
  = Redis.subscriptions (Redis.connectionState s).
Proof.
  destruct ev; try done. by rewrite LifecycleFacts.ready_state.
Qed.

(** An event leaves the registry as it is, or adds the connection handler's
    entry to it. *)
Lemma step_registry e st st' :
  step e st = Some st' →
  Redis.subscriptions (Redis.connectionState (redis st'))
  = Redis.subscriptions (Redis.connectionState (redis st))
  ∨ Redis.subscriptions (Redis.connectionState (redis st'))
    = Redis.set_add chat_subscription
        (Redis.subscriptions (Redis.connectionState (redis st))).
Proof.
  intros Hstep. destruct e; simpl in Hstep.
  - case_decide; [done|]. injection Hstep as <-.
    unfold bind, on_io, on_connection. simpl.
    destruct (Redis.not_open (Redis.pubSubClient (redis st))) eqn:Hopen.
    { rewrite subscribeTochannel_not_open by done. by left. }
    unfold Redis.not_open in Hopen.
    destruct (Redis.pubSubClient (redis st)) as [c|] eqn:Hc; [|done].
    apply negb_false_iff in Hopen.
    rewrite (subscribeTochannel_open _ _ _ _ _ c) by done. by right.
  - case_decide; [|done]. injection Hstep as <-. by left.
  - case_decide; [|done]. injection Hstep as <-. by left.
  - case_decide; [|done]. injection Hstep as <-. by left.
  - case_decide; [|done]. injection Hstep as <-.
    unfold bind, on_io. simpl. rewrite run_disconnect_state. by left.
  - destruct (Redis.pubSubClient (redis st)) as [c|] eqn:Hp; [|done].
    destruct (dispatching c && _); [|done]. injection Hstep as <-.
    destruct (deliver_state
                (default [] ((if pattern then patterns c else channels c) !! key))
                message channel st) as (_ & _ & [-> | ->]); [by left|].
    left. unfold listener_threw. by rewrite Hp.
  - destruct (get_client which (redis st)) as [c|]; [|done].
    injection Hstep as <-. left. by destruct which.
  - destruct (get_client which (redis st)) as [c|]; [|done].
    pose proof (setupRedisEvents_subscriptions c
                  (match which with Main => false | PubSub => true end)
                  ev reply (redis st)) as Hs.
    destruct (Redis.setupRedisEvents c _ ev reply (redis st)) as [[c'|err] s'];
      injection Hstep as <-; left; simpl in *; [by destruct which | done].
Qed.

Lemma reachable_registry_NoDup st :
  reachable st → NoDup (Redis.subscriptions (Redis.connectionState (redis st))).
Proof.
  intros (main & pubsub & evs & Hrun).
  assert (H0 : NoDup (Redis.subscriptions
                        (Redis.connectionState (redis (init main pubsub)))))
    by apply NoDup_nil_2.
  revert H0 Hrun. generalize (init main pubsub) as st0.
  induction evs as [|e evs IH]; intros st0 H0 Hrun; simpl in Hrun.
  - by injection Hrun as <-.
  - destruct (step e st0) as [st1|] eqn:Hstep; [|done].
    apply (IH st1); [|done].
    destruct (step_registry e st0 st1 Hstep) as [->| ->]; [done|].
    by apply set_add_NoDup.
Qed.

Lemma replay_cons id f frames st :
  replay id (f :: frames) st = replay id frames (snd (handle_frame id f st)).
Proof. reflexivity. Qed.

Lemma handle_frame_joined id f st id' room :
  joined id' room (io (snd (handle_frame id f st)))
  ↔ match f with
    | Frame_join r => (id' = id ∧ room = r) ∨ joined id' room (io st)
    | Frame_leave r => joined id' room (io st) ∧ ¬ (id' = id ∧ room = r)
    end.
Proof.
  destruct f as [r|r]; simpl; [apply joined_join | apply joined_leave].
Qed.

Lemma copies_S {A} k (l : list A) : copies (S k) l = l ++ copies k l.
Proof. reflexivity. Qed.

(** Listeners that are callbacks: each one fans the frame out, none throws. *)
Lemma dispatch_handlers message channel ls st :
  (∀ l, l ∈ ls → ∃ f, l = L_fn f) →
  dispatch ls message channel st
  = (Normal tt,
     mk_state (redis st)
       (mk_server (sockets (io st)) (rooms (io st)) (sids (io st))
          (disconnect_listeners (io st))
          (packets (io st)
           ++ copies (List.length ls)
                (map (fun id => (id, ("message", message))) (recipients channel (io st)))))
       (closures st)).
Proof.
  revert st. induction ls as [|l ls IH]; intros st Hall.
  { simpl. unfold copies, ret. simpl. rewrite app_nil_r. by destruct st as [r [] n]. }
  destruct (Hall l) as [f ->]; [by left|].
  simpl. unfold bind, call_redis. simpl.
  rewrite IH by (intros l' Hl'; apply Hall; by right).
  simpl. rewrite copies_S, app_assoc. done.
Qed.





End ListenerFacts.

Module RelayTraffic.
Import JS NodeRedis SocketIO SocketService RelayModel SocketIOFacts RedisFacts RelayFacts
  ListenerFacts.
Local Open Scope list_scope.

(** X13: the frames 'join' and 'leave' of one socket, handled in order: for each
    room the last frame that names it decides whether the socket is in the
    room, a room no frame names is as before; the rooms of the other
    sockets, the packets written and the broker module are untouched. *)
Theorem last_room_frame_decides id frames st :
  redis (replay id frames st) = redis st
  ∧ packets (io (replay id frames st)) = packets (io st)
  ∧ (∀ room,
       joined id room (io (replay id frames st))
       ↔ match last_frame room frames with
         | Some b => b = true
         | None => joined id room (io st)
         end)
  ∧ (∀ id' room,
       id' ≠ id →
       (joined id' room (io (replay id frames st)) ↔ joined id' room (io st))).
Proof.
  revert st. induction frames as [|f frames IH]; intros st; [done|].
  rewrite replay_cons.
  destruct (IH (snd (handle_frame id f st))) as (H1 & H2 & H3 & H4).
  split; [|split; [|split]].
  - rewrite H1. by destruct f.
  - rewrite H2. destruct f; simpl; [done|].
    unfold socket_leave, adapter_del. done.
  - intros room. rewrite H3. simpl.
    destruct (last_frame room frames) as [b|]; [done|].
    rewrite handle_frame_joined. destruct f as [r|r]; case_decide; subst.
    + split; [done|]. intros _. by left.
    + split; [|by right]. intros [[_ ?]|?]; done.
    + split; [|done]. intros [_ Hn]. by destruct Hn.
    + split; [by intros [? _]|]. intros Hj. split; [done|]. by intros [_ ?].
  - intros id' room Hne. rewrite (H4 id' room Hne), handle_frame_joined.
    destruct f as [r|r].
    + split; [|by right]. intros [[? _]|?]; done.
    + split; [by intros [? _]|]. intros Hj. split; [done|]. by intros [? _].
Qed.

(** X14: in every state the relay reaches, no broker client has been asked to
    publish, no socket has a 'disconnect' listener of the application, and
    nothing has been put on [global]: a chat message a client sends stops in
    its handler. *)
Theorem relay_never_publishes st :
  reachable st →
  (∀ which c, get_client which (redis st) = Some c → publish_calls c = [])
  ∧ disconnect_listeners (io st) = ∅
  ∧ Redis.global (redis st) = ∅.
Proof.
  intros Hr. pose proof (reachable_listeners st Hr) as [_ _ Hpub].
  apply reachable_invariant in Hr as [_ [_ _ Hg] Hls]. done.
Qed.

(** Two clients connected while both broker clients are open. *)
Lemma relay_never_publishes_witness :
  reachable two_clients
  ∧ (∀ which c, get_client which (redis two_clients) = Some c → publish_calls c = [])
  ∧ disconnect_listeners (io two_clients) = ∅
  ∧ Redis.global (redis two_clients) = ∅.
Proof.
  assert (Hr : reachable two_clients).
  { exists (Some true), (Some true),
      [Connection "s1" 1 (Normal tt); Connection "s2" 2 (Normal tt)].
    vm_compute. reflexivity. }
  split; [exact Hr|]. exact (relay_never_publishes two_clients Hr).
Defined.

(** X15: in every state the relay reaches, a connection accepted while the
    pub/sub client is open, whose subscribe call resolves, leaves [chat:*]
    with one listener more than before: the [handleMesage] closure made for
    this connection, after those made for the earlier ones. *)
Theorem connection_adds_a_listener id now st st' :
  reachable st →
  Redis.not_open (Redis.pubSubClient (redis st)) = false →
  step (Connection id now (Normal tt)) st = Some st' →
  channel_listeners "chat:*" (redis st')
  = channel_listeners "chat:*" (redis st) ++ [L_fn (mk_fn "handleMesage" (closures st))]
  ∧ closures st' = S (closures st).
Proof.
  intros Hr Hopen Hstep. apply reachable_listeners in Hr as [Hch _ _].
  simpl in Hstep. case_decide; [done|]. injection Hstep as <-.
  unfold bind, on_io, on_connection. simpl.
  unfold Redis.not_open in Hopen. unfold channel_listeners in *.
  destruct (Redis.pubSubClient (redis st)) as [c|] eqn:Hc; [|done].
  apply negb_false_iff in Hopen.
  rewrite (subscribeTochannel_open _ _ _ _ _ c) by done. simpl.
  split; [|done]. rewrite lookup_insert_eq. simpl.
  case_decide as Hin; [|done].
  destruct (Hch _ _ Hin) as (n & [= ->] & Hn). lia.
Qed.

(** A third client connects after two. *)
Lemma connection_adds_a_listener_witness :
  reachable two_clients
  ∧ Redis.not_open (Redis.pubSubClient (redis two_clients)) = false
  ∧ ∃ st',
      step (Connection "s3" 3 (Normal tt)) two_clients = Some st'
      ∧ channel_listeners "chat:*" (redis st')
        = channel_listeners "chat:*" (redis two_clients)
          ++ [L_fn (mk_fn "handleMesage" (closures two_clients))]
      ∧ closures st' = S (closures two_clients).
Proof.
  assert (Hr : reachable two_clients).
  { exists (Some true), (Some true),
      [Connection "s1" 1 (Normal tt); Connection "s2" 2 (Normal tt)].
    vm_compute. reflexivity. }
  assert (Ho : Redis.not_open (Redis.pubSubClient (redis two_clients)) = false).
  { vm_compute. reflexivity. }
  split; [exact Hr|]. split; [exact Ho|].
  destruct (step (Connection "s3" 3 (Normal tt)) two_clients) as [st'|] eqn:Hstep.
  - exists st'. split; [reflexivity|].
    exact (connection_adds_a_listener "s3" 3 two_clients st' Hr Ho Hstep).
  - exfalso. revert Hstep. vm_compute. discriminate.
Defined.

(** X16: in every state the relay reaches, a message frame of the broker
    that the client dispatches is for the subscribed channel itself and is
    fanned out once per listener of that channel: the packets written are as
    many copies of the room's fan-out as connections have subscribed, so a
    socket in the room named by the channel receives the message that many
    times; nothing else changes.  (No frame is dispatched once a listener
    has thrown.) *)
Theorem channel_frame_is_sent_once_per_listener key channel message st st' :
  reachable st →
  step (Delivery false key channel message) st = Some st' →
  key = channel
  ∧ redis st' = redis st
  ∧ packets (io st')
    = packets (io st)
      ++ copies (List.length (channel_listeners channel (redis st)))
           (map (fun id => (id, ("message", message))) (recipients channel (io st)))
  ∧ sids (io st') = sids (io st) ∧ rooms (io st') = rooms (io st).
Proof.
  intros Hr Hstep. apply reachable_listeners in Hr as [Hch _ _].
  simpl in Hstep. unfold channel_listeners in *.
  destruct (Redis.pubSubClient (redis st)) as [c|]; [|done].
  destruct (dispatching c); [|done]. simpl in Hstep.
  case_bool_decide as Hkey; [|done]. subst key. injection Hstep as <-.
  unfold deliver. rewrite dispatch_handlers; [done|].
  intros l Hl. destruct (Hch channel l Hl) as (n & -> & _). eauto.
Qed.

(** Two connections have subscribed and the first socket has joined the
    room [chat:*]; a message published on the channel [chat:*] reaches it
    twice. *)
Lemma channel_frame_witness :
  reachable two_in_chat
  ∧ ∃ st',
      step (Delivery false "chat:*" "chat:*" "hi") two_in_chat = Some st'
      ∧ packets (io st') = [("s1", ("message", "hi")); ("s1", ("message", "hi"))]
      ∧ "chat:*" = "chat:*"
      ∧ redis st' = redis two_in_chat
      ∧ packets (io st')
        = packets (io two_in_chat)
          ++ copies (List.length (channel_listeners "chat:*" (redis two_in_chat)))
               (map (fun id => (id, ("message", "hi")))
                  (recipients "chat:*" (io two_in_chat)))
      ∧ sids (io st') = sids (io two_in_chat) ∧ rooms (io st') = rooms (io two_in_chat).
Proof.
  assert (Hr : reachable two_in_chat).
  { exists (Some true), (Some true),
      [Connection "s1" 1 (Normal tt); Connection "s2" 2 (Normal tt); Join "s1" "chat:*"].
    vm_compute. reflexivity. }
  split; [exact Hr|].
  destruct (step (Delivery false "chat:*" "chat:*" "hi") two_in_chat) as [st'|] eqn:Hstep.
  - exists st'. split; [reflexivity|]. split.
    + revert Hstep. vm_compute. intros [= <-]. reflexivity.
    + exact (channel_frame_is_sent_once_per_listener "chat:*" "chat:*" "hi"
               two_in_chat st' Hr Hstep).
  - exfalso. revert Hstep. vm_compute. discriminate.
Defined.



(** X18: however many connections the relay has accepted, the registry
    holds at most one entry, the one of [chat:*] under the name
    [handleMesage], so [getRedisHealth] reports a [subscriptionCount] of 0
    or 1: each connection's closure has the same function name, and the
    registry is keyed by name, while the client keeps one listener per
    closure. *)
Theorem registry_counts_one_subscription main_ready pubsub_ready st :
  reachable st →
  (Redis.subscriptions (Redis.connectionState (redis st)) = []
   ∨ Redis.subscriptions (Redis.connectionState (redis st)) = [chat_subscription])
  ∧ (Lifecycle.subscriptionCount
       (Lifecycle.getRedisHealth main_ready pubsub_ready (redis st)) ≤ 1)%nat.
Proof.
  intros Hr. pose proof (reachable_registry_NoDup st Hr) as Hd.
  apply reachable_invariant in Hr as [_ [Hreg _ _] _].
  unfold Lifecycle.getRedisHealth. simpl.
  destruct (Redis.subscriptions (Redis.connectionState (redis st))) as [|t1 [|t2 ts]].
  - split; [by left | simpl; lia].
  - split; [|simpl; lia]. right. f_equal. apply Hreg. by left.
  - exfalso. apply NoDup_cons in Hd as [Hn _]. apply Hn.
    rewrite (Hreg t1) by (by left). rewrite (Hreg t2) by (right; by left). by left.
Qed.

(** Two connections accepted: two listeners on [chat:*], one registry
    entry. *)
Lemma registry_counts_witness :
  reachable two_clients
  ∧ List.length (channel_listeners "chat:*" (redis two_clients)) = 2%nat
  ∧ Redis.subscriptions (Redis.connectionState (redis two_clients)) = [chat_subscription]
  ∧ (Lifecycle.subscriptionCount
       (Lifecycle.getRedisHealth true true (redis two_clients)) ≤ 1)%nat.
Proof.
  assert (Hr : reachable two_clients).
  { exists (Some true), (Some true),
      [Connection "s1" 1 (Normal tt); Connection "s2" 2 (Normal tt)].
    vm_compute. reflexivity. }
  split; [exact Hr|]. split; [vm_compute; reflexivity|].
  split; [vm_compute; reflexivity|].
  exact (proj2 (registry_counts_one_subscription true true two_clients Hr)).
Defined.

End RelayTraffic.
